(** * gin-short-url: base-62 codes and the in-memory URL store

    A shallow embedding of [utils/base62.go], of the in-memory storage
    ([storage.MemoryStorage]), of the service ([services.URLService]),
    of the configuration ([config.Config]) and of the handlers
    ([handlers.URLHandler]), together with the properties of the
    encoder, of the store and of the layers above it.

    Conventions.  A Go [string] is a sequence of bytes: it is a Rocq
    [string], whose characters ([ascii]) are the bytes.  A [uint64] is
    an integer of [Z] kept in [0, 2^64) with the wrap-around written
    out ([wrap64]).  A [rune] and an [int] are integers of [Z]. *)

From Stdlib Require Import ZArith Ascii String List Lia Bool.
From stdpp Require Import base numbers option list strings gmap fin_maps.

Local Open Scope Z_scope.

(** ** Machine integers and Go strings *)

Definition uint64_max : Z := 2 ^ 64 - 1.

Definition wrap64 (z : Z) : Z := z mod 2 ^ 64.

Definition is_uint64 (z : Z) : Prop := 0 <= z < 2 ^ 64.

(** The numeric value of a byte. *)
Definition byte_val (c : ascii) : Z := Z.of_N (N_of_ascii c).

(** The byte of a number below 256. *)
Definition byte_of (z : Z) : ascii := ascii_of_N (Z.to_N z).

Definition bytes_of_string (s : string) : list ascii := list_ascii_of_string s.

Definition string_of_bytes (l : list ascii) : string := string_of_list_ascii l.

(** [len(s)], the number of bytes. *)
Definition len (s : string) : Z := Z.of_nat (String.length s).

(** ** UTF-8, as Go's [range] over a string and the conversions
    [[]rune(s)] and [string(runes)] see it *)

Module Utf8.

Definition RuneError : Z := 65533.

(** A continuation byte, 10xxxxxx. *)
Definition is_cont (b : Z) : bool := (128 <=? b) && (b <=? 191).

Definition in_range (lo hi b : Z) : bool := (lo <=? b) && (b <=? hi).

(** The payload bits of a continuation byte. *)
Definition cont_bits (b : Z) : Z := Z.land b 63.

(** Decoding of the first rune of a non-empty byte sequence: the rune
    and its width in bytes.  An invalid or truncated encoding yields
    [RuneError] with width 1. *)
Definition decode_rune (b0 : Z) (rest : list Z) : Z * nat :=
  if b0 <? 128 then (b0, 1%nat)
  else if in_range 194 223 b0 then
    match rest with
    | b1 :: _ =>
        if is_cont b1
        then (Z.lor (Z.shiftl (Z.land b0 31) 6) (cont_bits b1), 2%nat)
        else (RuneError, 1%nat)
    | _ => (RuneError, 1%nat)
    end
  else if in_range 224 239 b0 then
    match rest with
    | b1 :: b2 :: _ =>
        let lo := if b0 =? 224 then 160 else 128 in
        let hi := if b0 =? 237 then 159 else 191 in
        if in_range lo hi b1 && is_cont b2
        then (Z.lor (Z.shiftl (Z.land b0 15) 12)
                (Z.lor (Z.shiftl (cont_bits b1) 6) (cont_bits b2)), 3%nat)
        else (RuneError, 1%nat)
    | _ => (RuneError, 1%nat)
    end
  else if in_range 240 244 b0 then
    match rest with
    | b1 :: b2 :: b3 :: _ =>
        let lo := if b0 =? 240 then 144 else 128 in
        let hi := if b0 =? 244 then 143 else 191 in
        if in_range lo hi b1 && is_cont b2 && is_cont b3
        then (Z.lor (Z.shiftl (Z.land b0 7) 18)
                (Z.lor (Z.shiftl (cont_bits b1) 12)
                   (Z.lor (Z.shiftl (cont_bits b2) 6) (cont_bits b3))), 4%nat)
        else (RuneError, 1%nat)
    | _ => (RuneError, 1%nat)
    end
  else (RuneError, 1%nat).

(** The runes of a byte sequence, in order.  The fuel counts the
    bytes still to be read; every rune consumes at least one. *)
Fixpoint decode_all (fuel : nat) (bs : list Z) : list Z :=
  match fuel, bs with
  | S fuel', b0 :: rest =>
      let '(r, w) := decode_rune b0 rest in
      r :: decode_all fuel' (drop (w - 1) rest)
  | _, _ => []
  end.

(** [[]rune(s)], also the sequence of values of [for _, r := range s]. *)
Definition runes_of_string (s : string) : list Z :=
  let bs := byte_val <$> bytes_of_string s in
  decode_all (length bs) bs.

(** The UTF-8 encoding of one rune; a surrogate or a value out of
    range is encoded as [RuneError]. *)
Definition encode_rune (r : Z) : list Z :=
  if (0 <=? r) && (r <? 128) then [r]
  else if (128 <=? r) && (r <? 2048) then
    [Z.lor 192 (Z.shiftr r 6); Z.lor 128 (Z.land r 63)]
  else if ((2048 <=? r) && (r <? 55296)) || ((57344 <=? r) && (r <? 65536)) then
    [Z.lor 224 (Z.shiftr r 12); Z.lor 128 (Z.land (Z.shiftr r 6) 63);
     Z.lor 128 (Z.land r 63)]
  else if (65536 <=? r) && (r <=? 1114111) then
    [Z.lor 240 (Z.shiftr r 18); Z.lor 128 (Z.land (Z.shiftr r 12) 63);
     Z.lor 128 (Z.land (Z.shiftr r 6) 63); Z.lor 128 (Z.land r 63)]
  else [239; 191; 189].

(** [string(runes)]. *)
Definition string_of_runes (rs : list Z) : string :=
  string_of_bytes (byte_of <$> concat (encode_rune <$> rs)).

End Utf8.

(** ** utils/base62.go *)

Module Base62.

Definition base62Chars : string :=
  "0123456789abcdefghijklmnopqrstuvwxyzABCDEFGHIJKLMNOPQRSTUVWXYZ".

Definition base : Z := 62.

(** [base62Chars[i]].  The index [num % base] is always below 62,
    the length of the alphabet (lemma [index_in_alphabet]); the
    default stands for the index panic that therefore never happens. *)
Definition base62Chars_at (i : Z) : ascii :=
  match String.get (Z.to_nat i) base62Chars with
  | Some c => c
  | None => zero
  end.

(** The loop [for num > 0 { result.WriteByte(base62Chars[num%base]);
    num /= base }]: [result] is the content of the builder, the
    answer is the content at the exit of the loop.  [None] only when
    the fuel is spent before [num] reaches 0. *)
Fixpoint encode_loop (fuel : nat) (num : Z) (result : list ascii)
  {struct fuel} : option (list ascii) :=
  if 0 <? num then
    match fuel with
    | O => None
    | S fuel' =>
        encode_loop fuel' (num / base) (result ++ [base62Chars_at (num mod base)])
    end
  else Some result.

(** The loop [for i, j := 0, len(runes)-1; i < j; i, j = i+1, j-1
    { runes[i], runes[j] = runes[j], runes[i] }] on the slice
    [runes].  An index out of the slice would panic; the loop keeps
    both inside, and the model leaves the slice as it is there. *)
Fixpoint reverse_loop (fuel : nat) (i j : Z) (runes : list Z)
  {struct fuel} : list Z :=
  match fuel with
  | O => runes
  | S fuel' =>
      if i <? j then
        match runes !! Z.to_nat i, runes !! Z.to_nat j with
        | Some ri, Some rj =>
            reverse_loop fuel' (i + 1) (j - 1)
              (<[Z.to_nat j := ri]> (<[Z.to_nat i := rj]> runes))
        | _, _ => runes
        end
      else runes
  end.

(** [EncodeBase62].  A [uint64] has 64 bits and every turn of the
    first loop divides [num] by 62, so 64 turns are more than enough
    (lemma [encode_loop_terminates]). *)
Definition EncodeBase62 (num : Z) : string :=
  if num =? 0 then "0"
  else
    match encode_loop 64 num [] with
    | None => ""
    | Some result =>
        let encoded := string_of_bytes result in
        let runes := Utf8.runes_of_string encoded in
        let runes := reverse_loop (length runes) 0 (Z.of_nat (length runes) - 1) runes in
        Utf8.string_of_runes runes
    end.

(** The [switch] of [DecodeBase62] on one byte: the value of the
    digit, [None] in the [default] case. *)
Definition digit_value (char : Z) : option Z :=
  if (48 <=? char) && (char <=? 57) then Some (char - 48)
  else if (97 <=? char) && (char <=? 122) then Some (char - 97 + 10)
  else if (65 <=? char) && (char <=? 90) then Some (char - 65 + 36)
  else None.

(** The loop [for i := len(encoded) - 1; i >= 0; i--] of
    [DecodeBase62]; [n] is [i + 1], the number of bytes still to be
    read from the right.  [result] and [power] are [uint64].  The
    index [i] starts below [len(encoded)] and goes down, so
    [encoded[i]] is always a byte of the string; the first [None] is
    the index panic that never happens, the second is [return 0] of
    the [default] case. *)
Fixpoint decode_loop (n : nat) (encoded : list ascii) (result power : Z) : Z :=
  match n with
  | O => result
  | S i =>
      match encoded !! i with
      | None => 0
      | Some char =>
          match digit_value (byte_val char) with
          | None => 0
          | Some value =>
              decode_loop i encoded (wrap64 (result + wrap64 (value * power)))
                (wrap64 (power * base))
          end
      end
  end.

Definition DecodeBase62 (encoded : string) : Z :=
  let bs := bytes_of_string encoded in
  decode_loop (length bs) bs 0 1.

(** The test of [IsValidBase62] on one rune. *)
Definition is_base62_rune (char : Z) : bool :=
  ((48 <=? char) && (char <=? 57))
  || ((97 <=? char) && (char <=? 122))
  || ((65 <=? char) && (char <=? 90)).

Definition IsValidBase62 (s : string) : bool :=
  if len s =? 0 then false
  else forallb is_base62_rune (Utf8.runes_of_string s).

End Base62.

(** ** models.URL *)

(** [time.Time], as a number of nanoseconds. *)
Definition Time : Type := Z.

Record URL : Type := mkURL {
  ID : Z;                 (* uint64 *)
  OriginalURL : string;
  ShortCode : string;
  CreatedAt : Time;
  AccessCount : Z         (* uint64 *)
}.

(** The zero value of the struct. *)
Definition zero_URL : URL :=
  {| ID := 0; OriginalURL := ""; ShortCode := ""; CreatedAt := 0; AccessCount := 0 |}.

(** The sentinel errors of the packages [storage] and [services]; each
    [errors.New] is an error value of its own. *)
Inductive error : Type :=
  | storage_ErrURLNotFound
  | storage_ErrURLExists
  | services_ErrInvalidURL
  | services_ErrURLNotFound
  | services_ErrInvalidShortCode.

#[global] Instance error_eq_dec : EqDecision error.
Proof. solve_decision. Defined.

(** ** storage.MemoryStorage *)

Module Storage.

(** The three maps hold pointers to the same [models.URL] objects.
    [heap] is the memory these pointers point into: a pointer is the
    index of its object, and [&models.URL{...}] allocates at the end.
    The mutex is not modelled: the operations below are the critical
    sections, run one after the other. *)
Record MemoryStorage : Type := mkStorage {
  heap : list URL;
  urls : gmap string nat;        (* shortCode -> *URL *)
  urlsByID : gmap Z nat;         (* id -> *URL *)
  urlsByOrig : gmap string nat;  (* originalURL -> *URL *)
  nextID : Z                     (* uint64 *)
}.

Definition NewMemoryStorage : MemoryStorage :=
  {| heap := []; urls := ∅; urlsByID := ∅; urlsByOrig := ∅; nextID := 1 |}.

(** The object a pointer of the maps points to.  Such a pointer is
    never dangling in Go; the zero value is never read. *)
Definition deref (s : MemoryStorage) (p : nat) : URL :=
  default zero_URL (heap s !! p).

(** [Save]; [now] is the value of [time.Now()].  The result is the
    returned pointer ([None] for [nil]) and the returned error
    ([None] for [nil]), with the storage after the call. *)
Definition Save (originalURL : string) (now : Time) (s : MemoryStorage)
  : (option nat * option error) * MemoryStorage :=
  match urlsByOrig s !! originalURL with
  | Some existingURL => ((Some existingURL, None), s)
  | None =>
      let url := {| ID := nextID s;
                    OriginalURL := originalURL;
                    ShortCode := Base62.EncodeBase62 (nextID s);
                    CreatedAt := now;
                    AccessCount := 0 |} in
      let p := length (heap s) in
      ((Some p, None),
       {| heap := heap s ++ [url];
          urls := <[ShortCode url := p]> (urls s);
          urlsByID := <[ID url := p]> (urlsByID s);
          urlsByOrig := <[originalURL := p]> (urlsByOrig s);
          nextID := wrap64 (nextID s + 1) |})
  end.

Definition GetByShortCode (shortCode : string) (s : MemoryStorage)
  : option nat * option error :=
  match urls s !! shortCode with
  | None => (None, Some storage_ErrURLNotFound)
  | Some url => (Some url, None)
  end.

Definition GetByID (id : Z) (s : MemoryStorage) : option nat * option error :=
  match urlsByID s !! id with
  | None => (None, Some storage_ErrURLNotFound)
  | Some url => (Some url, None)
  end.

(** [url.AccessCount++] through the pointer. *)
Definition bump (u : URL) : URL :=
  {| ID := ID u; OriginalURL := OriginalURL u; ShortCode := ShortCode u;
     CreatedAt := CreatedAt u; AccessCount := wrap64 (AccessCount u + 1) |}.

Definition IncrementAccessCount (shortCode : string) (s : MemoryStorage)
  : option error * MemoryStorage :=
  match urls s !! shortCode with
  | None => (Some storage_ErrURLNotFound, s)
  | Some url =>
      (None,
       {| heap := alter bump url (heap s);
          urls := urls s; urlsByID := urlsByID s; urlsByOrig := urlsByOrig s;
          nextID := nextID s |})
  end.

(** The values of the [map[string]interface{}] of [GetStats]. *)
Inductive stat : Type :=
  | stat_int (n : Z)
  | stat_uint64 (n : Z).

Definition GetStats (s : MemoryStorage) : gmap string stat :=
  <["total_urls" := stat_int (Z.of_nat (size (urls s)))]>
    (<["next_id" := stat_uint64 (nextID s)]> ∅).

(** The calls a client can make on a storage, and their effect on it. *)
Inductive op : Type :=
  | OpSave (originalURL : string) (now : Time)
  | OpGetByShortCode (shortCode : string)
  | OpGetByID (id : Z)
  | OpIncrementAccessCount (shortCode : string).

Definition step (s : MemoryStorage) (o : op) : MemoryStorage :=
  match o with
  | OpSave originalURL now => (Save originalURL now s).2
  | OpGetByShortCode _ => s
  | OpGetByID _ => s
  | OpIncrementAccessCount shortCode => (IncrementAccessCount shortCode s).2
  end.

Definition run (ops : list op) (s : MemoryStorage) : MemoryStorage :=
  foldl step s ops.

(** The error a call returns. *)
Definition op_error (s : MemoryStorage) (o : op) : option error :=
  match o with
  | OpSave originalURL now => (Save originalURL now s).1.2
  | OpGetByShortCode shortCode => (GetByShortCode shortCode s).2
  | OpGetByID id => (GetByID id s).2
  | OpIncrementAccessCount shortCode => (IncrementAccessCount shortCode s).1
  end.

(** [K] calls of [IncrementAccessCount] in a row. *)
Fixpoint increment_times (K : nat) (shortCode : string) (s : MemoryStorage)
  : MemoryStorage :=
  match K with
  | O => s
  | S K' => increment_times K' shortCode (IncrementAccessCount shortCode s).2
  end.

(** [GetAllURLs]: the pointers of the map by code, appended in the
    order of [range s.urls].  Go leaves the order of a [range] over a
    map open; the model takes the order of [map_to_list], and the
    properties of the result do not depend on the order. *)
Definition GetAllURLs (s : MemoryStorage) : list nat :=
  (map_to_list (urls s)).*2.

(** The calls of [IncrementAccessCount] on [shortCode] that return a
    nil error in the run of [ops] from [s]. *)
Fixpoint hits (shortCode : string) (ops : list op) (s : MemoryStorage) : nat :=
  match ops with
  | [] => O
  | o :: ops' =>
      (match o with
       | OpIncrementAccessCount c =>
           if decide (c = shortCode)
           then (if decide (op_error s o = None) then 1 else 0)%nat
           else O
       | _ => O
       end + hits shortCode ops' (step s o))%nat
  end.

End Storage.

(** ** services.URLService, the lookups *)

Module Services.

Import Storage.

Record Config : Type := { BaseURL : string }.

(** [strings.TrimRight(s, "/")] on the bytes read from the right. *)
Fixpoint trim_slashes (rev_bytes : list ascii) : list ascii :=
  match rev_bytes with
  | c :: rest => if decide (c = "/"%char) then trim_slashes rest else rev_bytes
  | [] => []
  end.

Definition TrimRight_slash (s : string) : string :=
  string_of_bytes (rev (trim_slashes (rev (bytes_of_string s)))).

Definition buildShortURL (config : Config) (shortCode : string) : string :=
  let baseURL := TrimRight_slash (BaseURL config) in
  (baseURL +:+ "/" +:+ shortCode)%string.

Record URLInfoResponse : Type := {
  info_ID : Z;
  info_OriginalURL : string;
  info_ShortCode : string;
  info_ShortURL : string;
  info_CreatedAt : Time;
  info_AccessCount : Z
}.

(** [GetOriginalURL]: the returned string and error, and the storage
    after the call.  The error of [IncrementAccessCount] is dropped,
    as in the source.  [GetByShortCode] never returns a nil pointer
    with a nil error; that case stands for the nil dereference. *)
Definition GetOriginalURL (shortCode : string) (s : MemoryStorage)
  : (string * option error) * MemoryStorage :=
  if negb (Base62.IsValidBase62 shortCode) then (("", Some services_ErrInvalidShortCode), s)
  else
    match GetByShortCode shortCode s with
    | (_, Some err) =>
        if decide (err = storage_ErrURLNotFound)
        then (("", Some services_ErrURLNotFound), s)
        else (("", Some err), s)
    | (None, None) => (("", None), s)
    | (Some urlRecord, None) =>
        let s' := (IncrementAccessCount shortCode s).2 in
        ((OriginalURL (deref s' urlRecord), None), s')
    end.

Definition GetURLInfo (config : Config) (shortCode : string) (s : MemoryStorage)
  : option URLInfoResponse * option error :=
  if negb (Base62.IsValidBase62 shortCode) then (None, Some services_ErrInvalidShortCode)
  else
    match GetByShortCode shortCode s with
    | (_, Some err) =>
        if decide (err = storage_ErrURLNotFound)
        then (None, Some services_ErrURLNotFound)
        else (None, Some err)
    | (None, None) => (None, None)
    | (Some urlRecord, None) =>
        let u := deref s urlRecord in
        (Some {| info_ID := ID u;
                 info_OriginalURL := OriginalURL u;
                 info_ShortCode := ShortCode u;
                 info_ShortURL := buildShortURL config (ShortCode u);
                 info_CreatedAt := CreatedAt u;
                 info_AccessCount := AccessCount u |}, None)
    end.

Record ShortenResponse : Type := {
  resp_ID : Z;
  resp_OriginalURL : string;
  resp_ShortCode : string;
  resp_ShortURL : string;
  resp_CreatedAt : Time
}.

(** What the service uses of Go's library: [strings.TrimSpace], and of
    [net/url] the parser ([None] for an error), the fields [Scheme]
    and [Host] of a parsed URL, the assignment to [Scheme] and the
    method [String].  The service is modelled over any such library. *)
Record Library : Type := {
  TrimSpace : string -> string;
  url_URL : Type;
  url_Parse : string -> option url_URL;
  URL_Scheme : url_URL -> string;
  URL_Host : url_URL -> string;
  URL_set_Scheme : url_URL -> string -> url_URL;
  URL_String : url_URL -> string
}.

(** [strings.HasPrefix] and [strings.Contains], on bytes. *)
Fixpoint has_prefix (s prefix : list ascii) : bool :=
  match prefix, s with
  | [], _ => true
  | p :: prefix', c :: s' => if decide (c = p) then has_prefix s' prefix' else false
  | _ :: _, [] => false
  end.

Fixpoint contains (s substr : list ascii) : bool :=
  has_prefix s substr
  || match s with
     | [] => false
     | _ :: s' => contains s' substr
     end.

Definition Contains (s substr : string) : bool :=
  contains (bytes_of_string s) (bytes_of_string substr).

(** [validateURL]: the returned error, [None] for [nil]. *)
Definition validateURL (lib : Library) (rawURL : string) : option error :=
  if decide (TrimSpace lib rawURL = ""%string) then Some services_ErrInvalidURL
  else
    match url_Parse lib rawURL with
    | None => Some services_ErrInvalidURL
    | Some parsedURL =>
        (* the parsed URL after the test of scheme and host, [None]
           where the test returns the error *)
        let checked :=
          if bool_decide (URL_Scheme lib parsedURL = ""%string)
             || bool_decide (URL_Host lib parsedURL = ""%string)
          then
            match url_Parse lib ("http://" +:+ rawURL) with
            | None => None
            | Some parsedURL' =>
                if decide (URL_Host lib parsedURL' = ""%string) then None
                else Some parsedURL'
            end
          else Some parsedURL in
        match checked with
        | None => Some services_ErrInvalidURL
        | Some parsedURL =>
            if bool_decide (URL_Scheme lib parsedURL <> "http"%string)
               && bool_decide (URL_Scheme lib parsedURL <> "https"%string)
            then Some services_ErrInvalidURL
            else if negb (Contains (URL_Host lib parsedURL) ".")
                    && bool_decide (URL_Host lib parsedURL <> "localhost"%string)
            then Some services_ErrInvalidURL
            else None
        end
    end.

Definition normalizeURL (lib : Library) (rawURL : string) : string :=
  let parsed :=
    match url_Parse lib rawURL with
    | Some parsedURL => Some parsedURL
    | None => url_Parse lib ("http://" +:+ rawURL)
    end in
  match parsed with
  | None => rawURL
  | Some parsedURL =>
      let parsedURL :=
        if decide (URL_Scheme lib parsedURL = ""%string)
        then URL_set_Scheme lib parsedURL "http"
        else parsedURL in
      URL_String lib parsedURL
  end.

(** [ShortenURL]; [now] is the value of [time.Now()] in [Save].
    [Save] never returns a nil pointer with a nil error; that case
    stands for the nil dereference. *)
Definition ShortenURL (lib : Library) (config : Config) (originalURL : string)
    (now : Time) (s : MemoryStorage)
  : (option ShortenResponse * option error) * MemoryStorage :=
  match validateURL lib originalURL with
  | Some err => ((None, Some err), s)
  | None =>
      let normalizedURL := normalizeURL lib originalURL in
      let saved := Save normalizedURL now s in
      match saved.1 with
      | (_, Some err) => ((None, Some err), saved.2)
      | (None, None) => ((None, None), saved.2)
      | (Some urlRecord, None) =>
          let u := deref saved.2 urlRecord in
          ((Some {| resp_ID := ID u;
                    resp_OriginalURL := OriginalURL u;
                    resp_ShortCode := ShortCode u;
                    resp_ShortURL := buildShortURL config (ShortCode u);
                    resp_CreatedAt := CreatedAt u |}, None), saved.2)
      end
  end.

End Services.

(** ** config *)

Module ConfigPkg.

Record Config : Type := {
  Port : string;
  BaseURL : string;
  LogLevel : string
}.

(** The part of the configuration the service reads. *)
Definition service_config (c : Config) : Services.Config :=
  {| Services.BaseURL := BaseURL c |}.

(** [LoadConfig]; [Getenv] is [os.Getenv], which gives the empty
    string for a variable that is not set. *)
Definition LoadConfig (Getenv : string -> string) : Config :=
  let config := {| Port := "8080"; BaseURL := "http://localhost:8080";
                   LogLevel := "info" |} in
  let config :=
    let port := Getenv "PORT" in
    if decide (port <> ""%string)
    then {| Port := port; BaseURL := BaseURL config; LogLevel := LogLevel config |}
    else config in
  let config :=
    let baseURL := Getenv "BASE_URL" in
    if decide (baseURL <> ""%string)
    then {| Port := Port config; BaseURL := baseURL; LogLevel := LogLevel config |}
    else config in
  let config :=
    let logLevel := Getenv "LOG_LEVEL" in
    if decide (logLevel <> ""%string)
    then {| Port := Port config; BaseURL := BaseURL config; LogLevel := logLevel |}
    else config in
  config.

(** [GetPort]; [None] is the panic of [c.Port[0]] on an empty string. *)
Definition GetPort (c : Config) : option string :=
  match Port c with
  | EmptyString => None
  | String c0 _ =>
      if decide (c0 <> ":"%char) then Some (":" +:+ Port c) else Some (Port c)
  end.

(** A decimal digit. *)
Definition is_digit (c : ascii) : bool := (48 <=? byte_val c) && (byte_val c <=? 57).

(** [strconv.Atoi], that is [ParseInt(s, 10, 0)] with a 64-bit [int]:
    an optional sign and at least one decimal digit, and a value that
    fits the type; [None] for an error. *)
Definition Atoi (s : string) : option Z :=
  let '(neg, ds) :=
    match bytes_of_string s with
    | c :: rest =>
        if decide (c = "+"%char) then (false, rest)
        else if decide (c = "-"%char) then (true, rest)
        else (false, c :: rest)
    | [] => (false, [])
    end in
  match ds with
  | [] => None
  | _ :: _ =>
      if forallb is_digit ds then
        let n := foldl (fun n c => n * 10 + (byte_val c - 48)) 0 ds in
        let v := if neg then - n else n in
        if (- 2 ^ 63 <=? v) && (v <=? 2 ^ 63 - 1) then Some v else None
      else None
  end.

(** [IsValidPort]; [None] is the panic of [portStr[0]] on an empty
    string. *)
Definition IsValidPort (c : Config) : option bool :=
  match Port c with
  | EmptyString => None
  | String c0 rest =>
      let portStr := if decide (c0 = ":"%char) then rest else Port c in
      match Atoi portStr with
      | None => Some false
      | Some port => Some ((0 <? port) && (port <=? 65535))
      end
  end.

End ConfigPkg.

(** ** handlers.URLHandler *)

Module Handlers.

Import Storage Services.

Definition StatusOK : Z := 200.
Definition StatusCreated : Z := 201.
Definition StatusMovedPermanently : Z := 301.
Definition StatusBadRequest : Z := 400.
Definition StatusNotFound : Z := 404.
Definition StatusInternalServerError : Z := 500.

(** The object a handler passes to [c.JSON]. *)
Inductive body : Type :=
  | ErrorResponse (Error Message : string)
  | ShortenBody (r : ShortenResponse)
  | InfoBody (r : URLInfoResponse)
  | HealthBody (status service : string)
  | NullBody.                              (* a nil pointer: JSON null *)

(** What a handler writes: [c.JSON(code, obj)] or
    [c.Redirect(code, location)]. *)
Inductive response : Type :=
  | JSON (code : Z) (obj : body)
  | Redirect (code : Z) (location : string).

(** The handler [ShortenURL].  [bound] is the outcome of
    [c.ShouldBindJSON(&req)]: the text of its error, or [req.URL]. *)
Definition ShortenURL (lib : Library) (config : Config) (bound : string + string)
    (now : Time) (s : MemoryStorage) : response * MemoryStorage :=
  match bound with
  | inl message => (JSON StatusBadRequest (ErrorResponse "invalid_request" message), s)
  | inr url =>
      let r := Services.ShortenURL lib config url now s in
      match r.1 with
      | (_, Some err) =>
          if decide (err = services_ErrInvalidURL)
          then (JSON StatusBadRequest
                  (ErrorResponse "invalid_url" "The provided URL is not valid"), r.2)
          else (JSON StatusInternalServerError
                  (ErrorResponse "internal_error" "Failed to create short URL"), r.2)
      | (Some resp, None) => (JSON StatusCreated (ShortenBody resp), r.2)
      | (None, None) => (JSON StatusCreated NullBody, r.2)
      end
  end.

(** The handler [RedirectURL]; [shortCode] is [c.Param("shortCode")]. *)
Definition RedirectURL (shortCode : string) (s : MemoryStorage)
  : response * MemoryStorage :=
  let r := GetOriginalURL shortCode s in
  match r.1 with
  | (_, Some err) =>
      if decide (err = services_ErrURLNotFound)
      then (JSON StatusNotFound
              (ErrorResponse "url_not_found" "Short URL not found"), r.2)
      else if decide (err = services_ErrInvalidShortCode)
      then (JSON StatusBadRequest
              (ErrorResponse "invalid_short_code" "Invalid short code format"), r.2)
      else (JSON StatusInternalServerError
              (ErrorResponse "internal_error" "Failed to retrieve URL"), r.2)
  | (originalURL, None) => (Redirect StatusMovedPermanently originalURL, r.2)
  end.

(** The handler [GetURLInfo]; it leaves the storage as it is. *)
Definition GetURLInfo (config : Config) (shortCode : string) (s : MemoryStorage)
  : response :=
  match Services.GetURLInfo config shortCode s with
  | (_, Some err) =>
      if decide (err = services_ErrURLNotFound)
      then JSON StatusNotFound (ErrorResponse "url_not_found" "Short URL not found")
      else if decide (err = services_ErrInvalidShortCode)
      then JSON StatusBadRequest
             (ErrorResponse "invalid_short_code" "Invalid short code format")
      else JSON StatusInternalServerError
             (ErrorResponse "internal_error" "Failed to retrieve URL information")
  | (Some urlInfo, None) => JSON StatusOK (InfoBody urlInfo)
  | (None, None) => JSON StatusOK NullBody
  end.

(** The handler [HealthCheck]. *)
Definition HealthCheck : response :=
  JSON StatusOK (HealthBody "ok" "gin-url-shortener").

End Handlers.

(** ** A library for the examples *)

(** A stand-in for Go's library in examples: it parses
    ["http://host"] and ["https://host"] into a scheme and a host, and
    any other string into an empty scheme and an empty host, and it
    trims nothing.  The properties of the service are proved for every
    library; this one only shows that their hypotheses can be met. *)
Module ExampleLibrary.

Definition parse (s : string) : option (string * string) :=
  let bs := bytes_of_string s in
  if Services.has_prefix bs (bytes_of_string "http://")
  then Some ("http"%string, string_of_bytes (drop 7 bs))
  else if Services.has_prefix bs (bytes_of_string "https://")
  then Some ("https"%string, string_of_bytes (drop 8 bs))
  else Some (""%string, ""%string).

Definition lib : Services.Library :=
  {| Services.TrimSpace := fun s => s;
     Services.url_URL := (string * string)%type;
     Services.url_Parse := parse;
     Services.URL_Scheme := fst;
     Services.URL_Host := snd;
     Services.URL_set_Scheme := fun u scheme => (scheme, u.2);
     Services.URL_String := fun u => (u.1 +:+ "://" +:+ u.2)%string |}.

End ExampleLibrary.

(** ** Auxiliary functions of the proofs *)

(** The digits of [num] in base 62, least significant first: what the
    first loop of [EncodeBase62] writes, as numbers. *)
Fixpoint digits (fuel : nat) (num : Z) : list Z :=
  match fuel with
  | O => []
  | S fuel' =>
      if 0 <? num then num mod Base62.base :: digits fuel' (num / Base62.base) else []
  end.

(** The loop of [DecodeBase62] on the bytes in the order it reads them,
    from the right end of the string. *)
Fixpoint decode_fold (rev_bytes : list ascii) (result power : Z) : Z :=
  match rev_bytes with
  | [] => result
  | char :: rest =>
      match Base62.digit_value (byte_val char) with
      | None => 0
      | Some value =>
          decode_fold rest (wrap64 (result + wrap64 (value * power)))
            (wrap64 (power * Base62.base))
      end
  end.

(** A byte of the alphabet. *)
Definition is_base62_byte (c : ascii) : bool := Base62.is_base62_rune (byte_val c).

(** The value of a byte as a digit, 0 for a byte out of the alphabet. *)
Definition digit_of (c : ascii) : Z := default 0 (Base62.digit_value (byte_val c)).

(** The number a string of digits denotes in base 62, read from the
    left, most significant digit first: [value = value * 62 + digit],
    in unbounded integers. *)
Definition base62_value (s : string) : Z :=
  foldl (fun value c => value * Base62.base + digit_of c) 0 (bytes_of_string s).

(** The same number from the digits read from the right. *)
Fixpoint value_lsb (rev_bytes : list ascii) : Z :=
  match rev_bytes with
  | [] => 0
  | c :: rest => digit_of c + Base62.base * value_lsb rest
  end.

(** The original URLs that the calls of [Save] among [ops] were given. *)
Definition saved_urls (ops : list Storage.op) : gset string :=
  list_to_set (omap (fun o => match o with
                              | Storage.OpSave originalURL _ => Some originalURL
                              | _ => None
                              end) ops).

(** A code as [EncodeBase62] writes them: digits of the alphabet, not
    empty, and no ["0"] in front unless the code is ["0"] itself. *)
Definition canonical (s : string) : Prop :=
  Base62.IsValidBase62 s = true
  /\ (s = "0"%string \/ head (bytes_of_string s) <> Some "0"%char).

(** ** The coherence of the store *)

(** [m] indexes the objects of the heap [h] by the field [key]: a key
    is mapped to a pointer exactly when the object there has this key,
    so that every object is indexed once, under its own key. *)
Definition indexed {K : Type} `{Countable K} (key : URL -> K)
    (m : gmap K nat) (h : list URL) : Prop :=
  (forall k p, m !! k = Some p <-> exists r, h !! p = Some r /\ key r = k)
  /\ size m = length h.

(** The invariant of a [MemoryStorage]: the objects were allocated in
    the order of their ids, from 1 on, each with the code of its id;
    the counter is the next id; the three maps index the same objects. *)
Record coherent (s : Storage.MemoryStorage) : Prop := {
  coh_nextID : Storage.nextID s = Z.of_nat (length (Storage.heap s)) + 1;
  coh_range : Storage.nextID s <= uint64_max;
  coh_record : forall p r, Storage.heap s !! p = Some r ->
    ID r = Z.of_nat p + 1 /\ ShortCode r = Base62.EncodeBase62 (ID r);
  coh_urls : indexed ShortCode (Storage.urls s) (Storage.heap s);
  coh_urlsByID : indexed ID (Storage.urlsByID s) (Storage.heap s);
  coh_urlsByOrig : indexed OriginalURL (Storage.urlsByOrig s) (Storage.heap s)
}.

(** * Properties *)

(** ** Examples *)

Example EncodeBase62_62 : Base62.EncodeBase62 62 = "10"%string.
Proof. vm_compute. reflexivity. Qed.

Example EncodeBase62_max : Base62.EncodeBase62 uint64_max = "lYGhA16ahyf"%string.
Proof. vm_compute. reflexivity. Qed.

Example DecodeBase62_max : Base62.DecodeBase62 "lYGhA16ahyf" = uint64_max.
Proof. vm_compute. reflexivity. Qed.

(** The scenario of the specification: the first URL gets id 1 and
    code ["1"], the second id 2 and code ["2"], the 62nd code ["10"];
    three accesses of the first are counted. *)
Example scenario :
  let save k := Storage.OpSave ("https://example.com/" +:+ Base62.EncodeBase62 k) k in
  let ops := (save <$> (Z.of_nat <$> seq 1 62))
             ++ [Storage.OpIncrementAccessCount "1"; Storage.OpIncrementAccessCount "1";
                 Storage.OpIncrementAccessCount "1"] in
  let s := Storage.run ops Storage.NewMemoryStorage in
  (fun r => (ID r, ShortCode r, AccessCount r)) <$> Storage.heap s !! 0%nat
  = Some (1, "1"%string, 3)
  /\ (fun r => (ID r, ShortCode r, AccessCount r)) <$> Storage.heap s !! 1%nat
     = Some (2, "2"%string, 0)
  /\ (fun r => (ID r, ShortCode r, AccessCount r)) <$> Storage.heap s !! 61%nat
     = Some (62, "10"%string, 0)
  /\ Storage.GetByShortCode "10" s = (Some 61%nat, None)
  /\ Storage.nextID s = 63.
Proof. by vm_compute. Qed.

(** ** Bytes, strings and runes *)

Lemma byte_val_range (c : ascii) : 0 <= byte_val c < 256.
Proof.
  unfold byte_val. pose proof (N_ascii_bounded c). lia.
Qed.

Lemma byte_of_val (c : ascii) : byte_of (byte_val c) = c.
Proof.
  unfold byte_of, byte_val. rewrite N2Z.id. apply ascii_N_embedding.
Qed.

Lemma bytes_of_string_of_bytes (l : list ascii) :
  bytes_of_string (string_of_bytes l) = l.
Proof. apply list_ascii_of_string_of_list_ascii. Qed.

Lemma string_of_bytes_of_string (s : string) :
  string_of_bytes (bytes_of_string s) = s.
Proof. apply string_of_list_ascii_of_string. Qed.

(** ** Machine integers *)

Lemma wrap64_small (z : Z) : 0 <= z < 2 ^ 64 -> wrap64 z = z.
Proof. intros. unfold wrap64. by apply Z.mod_small. Qed.

Lemma wrap64_range (z : Z) : is_uint64 (wrap64 z).
Proof. unfold wrap64, is_uint64. apply Z.mod_pos_bound. lia. Qed.

(** ** Bit operations on small numbers *)

Lemma land_low_bits (a k : Z) : 0 <= k -> Z.land a (2 ^ k - 1) = a mod 2 ^ k.
Proof.
  intros Hk. rewrite <- Z.land_ones by done.
  f_equal. rewrite Z.ones_equiv. lia.
Qed.

Lemma land_63 (a : Z) : Z.land a 63 = a mod 64.
Proof. apply (land_low_bits a 6). lia. Qed.

Lemma land_31 (a : Z) : Z.land a 31 = a mod 32.
Proof. apply (land_low_bits a 5). lia. Qed.

Lemma land_15 (a : Z) : Z.land a 15 = a mod 16.
Proof. apply (land_low_bits a 4). lia. Qed.

Lemma land_7 (a : Z) : Z.land a 7 = a mod 8.
Proof. apply (land_low_bits a 3). lia. Qed.

Lemma lor_ge_pow2 (k a b : Z) :
  0 <= k -> 0 <= a -> 0 <= b -> 2 ^ k <= a -> 2 ^ k <= Z.lor a b.
Proof.
  intros Hk Ha Hb Hle.
  assert (0 < 2 ^ k) by (apply Z.pow_pos_nonneg; lia).
  assert (Hpos : 0 < Z.lor a b).
  { destruct (Z.eq_dec (Z.lor a b) 0) as [E|E].
    - apply Z.lor_eq_0_iff in E. lia.
    - pose proof (proj2 (Z.lor_nonneg a b) (conj Ha Hb)). lia. }
  apply Z.log2_le_pow2; [done|].
  rewrite Z.log2_lor by done.
  apply Z.log2_le_pow2 in Hle; lia.
Qed.

Lemma lor_ge_128_l (a b : Z) : 0 <= a -> 0 <= b -> 128 <= a -> 128 <= Z.lor a b.
Proof. intros. by apply (lor_ge_pow2 7). Qed.

Lemma lor_ge_128_r (a b : Z) : 0 <= a -> 0 <= b -> 128 <= b -> 128 <= Z.lor a b.
Proof. intros. rewrite Z.lor_comm. by apply lor_ge_128_l. Qed.

Lemma fmap_rev_list {A B : Type} (f : A -> B) (l : list A) :
  f <$> rev l = rev (f <$> l).
Proof.
  induction l as [|x l IH]; [done|].
  simpl. by rewrite fmap_app, IH.
Qed.

Module Utf8Facts.

Import Utf8.

(** A byte below 128 is a rune of its own. *)
Lemma decode_rune_ascii (b0 : Z) (rest : list Z) :
  b0 < 128 -> decode_rune b0 rest = (b0, 1%nat).
Proof.
  intros Hb. unfold decode_rune.
  destruct (Z.ltb_spec b0 128); [done | lia].
Qed.

Lemma cont_bits_tail (b : Z) : 128 <= b <= 191 -> cont_bits b = b - 128.
Proof.
  intros Hb. unfold cont_bits. rewrite land_63.
  Z.to_euclidean_division_equations. lia.
Qed.

Lemma shiftl_nonneg_mul (a k : Z) : 0 <= k -> Z.shiftl a k = a * 2 ^ k.
Proof. intros. by rewrite Z.shiftl_mul_pow2. Qed.

Ltac euclid := Z.to_euclidean_division_equations; lia.

Ltac lor_nonneg := repeat (apply Z.lor_nonneg; split); euclid.

Ltac solve_lor_ge :=
  first [ apply lor_ge_128_l; [lor_nonneg | lor_nonneg | euclid]
        | apply lor_ge_128_r; [lor_nonneg | lor_nonneg | solve_lor_ge] ].

(** A byte from 128 on starts a rune that is not below 128. *)
Lemma decode_rune_high (b0 : Z) (rest : list Z) :
  128 <= b0 -> 128 <= (decode_rune b0 rest).1.
Proof.
  intros Hb. unfold decode_rune, RuneError, in_range, is_cont.
  destruct (Z.ltb_spec b0 128); [lia |].
  repeat match goal with
  | |- context [match ?l with [] => _ | _ :: _ => _ end] => destruct l; simpl
  | |- context [if ?c then _ else _] => destruct c eqn:?; simpl
  end; try lia;
  repeat match goal with
  | H : _ && _ = true |- _ => apply andb_prop in H as [? ?]
  | H : (_ <=? _) = true |- _ => apply Z.leb_le in H
  | H : (_ =? _) = true |- _ => apply Z.eqb_eq in H
  | H : (_ =? _) = false |- _ => apply Z.eqb_neq in H
  | H : context [if ?c then _ else _] |- _ => destruct c eqn:?
  end.
  all: rewrite ?cont_bits_tail by lia.
  all: rewrite ?shiftl_nonneg_mul by lia.
  all: rewrite ?land_31, ?land_15, ?land_7.
  all: solve_lor_ge.
Qed.

(** Reading the runes of a byte sequence tells whether all bytes are
    in the alphabet: a byte below 128 is its own rune, and a byte
    from 128 on makes a rune from 128 on. *)
Lemma forallb_decode_all (fuel : nat) (bs : list Z) :
  (length bs <= fuel)%nat ->
  forallb Base62.is_base62_rune (decode_all fuel bs)
  = forallb Base62.is_base62_rune bs.
Proof.
  revert bs. induction fuel as [fuel IH] using lt_wf_ind.
  intros [|b0 rest] Hlen; destruct fuel as [|fuel']; simpl in *; try done; [lia|].
  destruct (Z.lt_ge_cases b0 128) as [Hlo|Hhi].
  - rewrite decode_rune_ascii by done. simpl. rewrite drop_0.
    f_equal. apply IH; lia.
  - pose proof (decode_rune_high b0 rest Hhi) as Hr.
    destruct (decode_rune b0 rest) as [r w]. simpl in *.
    assert (Hf : forall x, 128 <= x -> Base62.is_base62_rune x = false).
    { intros x Hx. unfold Base62.is_base62_rune.
      repeat match goal with
      | |- context [?a <=? ?b] => destruct (Z.leb_spec a b); simpl; try lia
      end; done. }
    by rewrite !Hf.
Qed.

(** The runes of bytes below 128 are these bytes. *)
Lemma decode_all_ascii (fuel : nat) (bs : list Z) :
  (length bs <= fuel)%nat -> Forall (fun b => b < 128) bs ->
  decode_all fuel bs = bs.
Proof.
  revert bs. induction fuel as [|fuel IH]; intros [|b0 rest] Hlen Hall;
    simpl in *; try done; [lia|].
  inversion Hall; subst.
  rewrite decode_rune_ascii by done. simpl. rewrite drop_0.
  f_equal. apply IH; [lia | done].
Qed.

Lemma encode_rune_ascii (r : Z) : 0 <= r < 128 -> encode_rune r = [r].
Proof.
  intros Hr. unfold encode_rune.
  destruct (Z.leb_spec 0 r), (Z.ltb_spec r 128); simpl; try lia; done.
Qed.

Lemma runes_of_string_ascii (l : list ascii) :
  Forall (fun c => byte_val c < 128) l ->
  runes_of_string (string_of_bytes l) = byte_val <$> l.
Proof.
  intros Hall. unfold runes_of_string.
  rewrite bytes_of_string_of_bytes.
  apply decode_all_ascii; [done|].
  by apply Forall_fmap.
Qed.

Lemma string_of_runes_ascii (l : list ascii) :
  Forall (fun c => byte_val c < 128) l ->
  string_of_runes (byte_val <$> l) = string_of_bytes l.
Proof.
  intros Hall. unfold string_of_runes. f_equal.
  induction Hall as [|c l Hc _ IH]; [done|].
  rewrite !fmap_cons, encode_rune_ascii by (pose proof (byte_val_range c); lia).
  change (concat ([byte_val c] :: (encode_rune <$> (byte_val <$> l))))
    with (byte_val c :: concat (encode_rune <$> (byte_val <$> l))).
  by rewrite fmap_cons, byte_of_val, IH.
Qed.

End Utf8Facts.

(** ** The base-62 encoder *)

Module Base62Facts.

Import Base62.

(** *** The reversal loop *)

Ltac app_norm := rewrite <- ?app_assoc; simpl; rewrite <- ?app_assoc; done.

Lemma reverse_loop_middle (fuel : nat) :
  forall (pre mid post : list Z),
    (length mid <= fuel)%nat ->
    reverse_loop fuel (Z.of_nat (length pre))
      (Z.of_nat (length pre + length mid) - 1) (pre ++ mid ++ post)
    = pre ++ rev mid ++ post.
Proof.
  induction fuel as [|fuel IH]; intros pre mid post Hlen.
  { destruct mid; simpl in *; [done | lia]. }
  simpl.
  destruct mid as [|a mid]; simpl.
  { destruct (Z.ltb_spec (Z.of_nat (length pre)) (Z.of_nat (length pre + 0) - 1));
      [lia | done]. }
  destruct mid as [|b m _] using rev_ind; simpl.
  { destruct (Z.ltb_spec (Z.of_nat (length pre)) (Z.of_nat (length pre + 1) - 1));
      [lia | done]. }
  rewrite length_app in *. simpl in *.
  destruct (Z.ltb_spec (Z.of_nat (length pre))
              (Z.of_nat (length pre + S (length m + 1)) - 1)); [|lia].
  rewrite Nat2Z.id.
  replace (Z.to_nat (Z.of_nat (length pre + S (length m + 1)) - 1))
    with (length (pre ++ a :: m)) by (rewrite length_app; simpl; lia).
  rewrite list_lookup_middle by done.
  replace (pre ++ a :: (m ++ [b]) ++ post) with ((pre ++ a :: m) ++ b :: post)
    by app_norm.
  rewrite list_lookup_middle by done.
  replace ((pre ++ a :: m) ++ b :: post) with (pre ++ a :: (m ++ b :: post))
    by app_norm.
  rewrite insert_app_r_alt, Nat.sub_diag by lia. simpl.
  replace (pre ++ b :: m ++ b :: post) with ((pre ++ b :: m) ++ b :: post)
    by app_norm.
  replace (length (pre ++ a :: m)) with (length (pre ++ b :: m))
    by (rewrite !length_app; done).
  rewrite insert_app_r_alt, Nat.sub_diag by lia. simpl.
  replace ((pre ++ b :: m) ++ a :: post) with ((pre ++ [b]) ++ m ++ (a :: post))
    by app_norm.
  replace (Z.of_nat (length pre) + 1) with (Z.of_nat (length (pre ++ [b])))
    by (rewrite length_app; simpl; lia).
  replace (Z.of_nat (length pre + S (length m + 1)) - 1 - 1)
    with (Z.of_nat (length (pre ++ [b]) + length m) - 1)
    by (rewrite length_app; simpl; lia).
  rewrite length_app in Hlen. simpl in Hlen.
  rewrite IH by lia.
  rewrite rev_app_distr. simpl.
  app_norm.
Qed.

(** The loop reverses the slice. *)
Lemma reverse_loop_rev (runes : list Z) :
  reverse_loop (length runes) 0 (Z.of_nat (length runes) - 1) runes = rev runes.
Proof.
  pose proof (reverse_loop_middle (length runes) [] runes []) as H.
  simpl in H. rewrite !app_nil_r in H. by apply H.
Qed.

(** *** The alphabet *)

(** A property checked on every number below [n]. *)
Lemma check_below (P : Z -> bool) (n : nat) :
  forallb P (Z.of_nat <$> seq 0 n) = true ->
  forall d, 0 <= d < Z.of_nat n -> P d = true.
Proof.
  intros Hall d Hd.
  rewrite forallb_forall in Hall. apply Hall.
  apply list_elem_of_In, list_elem_of_fmap. exists (Z.to_nat d).
  split; [lia | apply elem_of_seq; lia].
Qed.

Lemma index_in_alphabet (num : Z) :
  is_Some (String.get (Z.to_nat (num mod base)) base62Chars).
Proof.
  assert (H : 0 <= num mod base < 62) by (apply Z.mod_pos_bound; done).
  revert H. generalize (num mod base). intros d Hd.
  apply (check_below
           (fun d => bool_decide (is_Some (String.get (Z.to_nat d) base62Chars))) 62)
    in Hd; [by apply bool_decide_eq_true in Hd | by vm_compute].
Qed.

(** The digit of the [d]-th character of the alphabet is [d]. *)
Lemma digit_value_alphabet (d : Z) :
  0 <= d < 62 -> digit_value (byte_val (base62Chars_at d)) = Some d.
Proof.
  intros Hd.
  apply (check_below
           (fun d => bool_decide (digit_value (byte_val (base62Chars_at d)) = Some d)) 62)
    in Hd; [by apply bool_decide_eq_true in Hd | by vm_compute].
Qed.

Lemma alphabet_is_ascii (d : Z) : 0 <= d < 62 -> byte_val (base62Chars_at d) < 128.
Proof.
  intros Hd.
  apply (check_below (fun d => byte_val (base62Chars_at d) <? 128) 62) in Hd;
    [by apply Z.ltb_lt in Hd | by vm_compute].
Qed.

(** *** The digits *)

Lemma digits_range (fuel : nat) (num : Z) :
  Forall (fun d => 0 <= d < 62) (digits fuel num).
Proof.
  revert num. induction fuel as [|fuel IH]; intros num; simpl; [done|].
  destruct (Z.ltb_spec 0 num); [|done].
  constructor; [apply Z.mod_pos_bound; done | apply IH].
Qed.

(** With enough fuel the first loop of [EncodeBase62] leaves by its
    own test, having written the digits. *)
Lemma encode_loop_digits (fuel : nat) :
  forall (num : Z) (result : list ascii),
    num < base ^ Z.of_nat fuel ->
    encode_loop fuel num result
    = Some (result ++ (base62Chars_at <$> digits fuel num)).
Proof.
  induction fuel as [|fuel IH]; intros num result Hlt.
  - simpl in *. destruct (Z.ltb_spec 0 num); [lia|]. by rewrite app_nil_r.
  - simpl. destruct (Z.ltb_spec 0 num); [|by rewrite app_nil_r].
    rewrite IH.
    + rewrite <- app_assoc. done.
    + rewrite Nat2Z.inj_succ, Z.pow_succ_r in Hlt by lia.
      apply Z.div_lt_upper_bound; [done | lia].
Qed.

Lemma uint64_below_fuel (num : Z) : is_uint64 num -> num < base ^ Z.of_nat 64.
Proof.
  intros [_ H]. eapply Z.lt_trans; [exact H | by vm_compute].
Qed.

Lemma encode_loop_terminates (num : Z) (result : list ascii) :
  is_uint64 num -> is_Some (encode_loop 64 num result).
Proof.
  intros H. rewrite encode_loop_digits by by apply uint64_below_fuel. done.
Qed.

(** [EncodeBase62] of a positive number: its digits, most
    significant first, as characters of the alphabet. *)
Lemma EncodeBase62_digits (num : Z) :
  0 < num < 2 ^ 64 ->
  EncodeBase62 num = string_of_bytes (rev (base62Chars_at <$> digits 64 num)).
Proof.
  intros Hn. unfold EncodeBase62.
  destruct (Z.eqb_spec num 0); [lia|].
  rewrite encode_loop_digits by (apply uint64_below_fuel; unfold is_uint64; lia).
  rewrite app_nil_l.
  assert (Hascii : Forall (fun c => byte_val c < 128) (base62Chars_at <$> digits 64 num)).
  { apply Forall_fmap. eapply Forall_impl; [apply digits_range|].
    intros d Hd. by apply alphabet_is_ascii. }
  rewrite Utf8Facts.runes_of_string_ascii by done.
  rewrite reverse_loop_rev.
  rewrite <- fmap_rev_list, Utf8Facts.string_of_runes_ascii; [done|].
  by apply Forall_rev.
Qed.

(** *** Decoding *)

Lemma decode_loop_fold (n : nat) (encoded : list ascii) (result power : Z) :
  (n <= length encoded)%nat ->
  decode_loop n encoded result power
  = decode_fold (rev (take n encoded)) result power.
Proof.
  revert result power. induction n as [|i IH]; intros result power Hn; [done|].
  destruct (lookup_lt_is_Some_2 encoded i) as [char Hchar]; [lia|].
  rewrite (take_S_r _ _ _ Hchar), rev_app_distr. simpl. rewrite Hchar.
  destruct (digit_value (byte_val char)); [|done].
  apply IH. lia.
Qed.

Lemma DecodeBase62_fold (l : list ascii) :
  DecodeBase62 (string_of_bytes l) = decode_fold (rev l) 0 1.
Proof.
  unfold DecodeBase62. rewrite bytes_of_string_of_bytes.
  rewrite decode_loop_fold by done. by rewrite firstn_all.
Qed.

(** Reading the digits of [num] from [result] and [power] adds
    [num * power], as long as the sum is a [uint64]: no addition and
    no multiplication that matters wraps around. *)
Lemma decode_fold_digits (fuel : nat) :
  forall (num result power : Z),
    0 <= result -> 0 <= power -> 0 <= num ->
    result + num * power < 2 ^ 64 ->
    num < base ^ Z.of_nat fuel ->
    decode_fold (base62Chars_at <$> digits fuel num) result power
    = result + num * power.
Proof.
  induction fuel as [|fuel IH]; intros num result power Hr Hp Hn Hsum Hlt.
  { simpl in *. lia. }
  simpl. destruct (Z.ltb_spec 0 num); [|simpl; lia].
  rewrite fmap_cons. simpl.
  assert (Hd : 0 <= num mod base < 62) by (apply Z.mod_pos_bound; done).
  rewrite digit_value_alphabet by done.
  assert (Hdiv : num = base * (num / base) + num mod base)
    by (apply Z.div_mod; done).
  assert (Hq : 0 <= num / base) by (apply Z.div_pos; done).
  unfold base in *.
  assert (Hdp : 0 <= num mod 62 * power) by nia.
  assert (Hqp : 0 <= (num / 62) * power) by nia.
  assert (Hsplit : num * power = 62 * ((num / 62) * power) + num mod 62 * power) by nia.
  rewrite (wrap64_small (num mod 62 * power)) by lia.
  rewrite (wrap64_small (result + num mod 62 * power)) by lia.
  assert (Hlt' : num / 62 < 62 ^ Z.of_nat fuel).
  { rewrite Nat2Z.inj_succ, Z.pow_succ_r in Hlt by lia.
    apply Z.div_lt_upper_bound; lia. }
  destruct (Z.eq_dec (num / 62) 0) as [Hz|Hnz].
  - rewrite Hz in *.
    destruct fuel; simpl; lia.
  - assert (power * 62 <= (num / 62) * power * 62) by nia.
    rewrite (wrap64_small (power * 62)) by lia.
    rewrite IH; lia.
Qed.

Lemma roundtrip (num : Z) : is_uint64 num -> DecodeBase62 (EncodeBase62 num) = num.
Proof.
  intros [Hlo Hhi].
  destruct (Z.eq_dec num 0) as [->|Hne]; [done|].
  rewrite EncodeBase62_digits by lia.
  rewrite DecodeBase62_fold, rev_involutive.
  rewrite decode_fold_digits; try lia.
  apply uint64_below_fuel. unfold is_uint64. lia.
Qed.

Lemma EncodeBase62_inj (n m : Z) :
  is_uint64 n -> is_uint64 m -> EncodeBase62 n = EncodeBase62 m -> n = m.
Proof.
  intros Hn Hm Heq.
  rewrite <- (roundtrip n Hn), <- (roundtrip m Hm). by rewrite Heq.
Qed.

(** *** Bytes out of the alphabet *)

Lemma digit_value_None (char : Z) :
  digit_value char = None <-> is_base62_rune char = false.
Proof.
  unfold digit_value, is_base62_rune.
  repeat match goal with
  | |- context [?a <=? ?b] => destruct (Z.leb_spec a b); simpl
  end; split; intros; congruence.
Qed.

Lemma decode_fold_invalid (l : list ascii) (result power : Z) :
  Exists (fun c => is_base62_byte c = false) l -> decode_fold l result power = 0.
Proof.
  revert result power. induction l as [|c l IH]; intros result power Hex.
  { inversion Hex. }
  simpl. destruct (digit_value (byte_val c)) as [value|] eqn:Hv; [|done].
  apply IH. inversion Hex as [? ? Hc|]; subst; [|done].
  apply digit_value_None in Hc. congruence.
Qed.

Lemma DecodeBase62_invalid (s : string) :
  Exists (fun c => is_base62_byte c = false) (bytes_of_string s) ->
  DecodeBase62 s = 0.
Proof.
  intros Hex. rewrite <- (string_of_bytes_of_string s), DecodeBase62_fold.
  apply decode_fold_invalid. by apply Exists_rev.
Qed.

(** *** Validity *)

(** The bytes accepted by the three ranges are the 62 characters of
    [base62Chars]. *)
Lemma is_base62_byte_alphabet (c : ascii) :
  is_base62_byte c = true <-> c ∈ bytes_of_string base62Chars.
Proof.
  assert (H : bool_decide (c ∈ bytes_of_string base62Chars) = is_base62_byte c).
  { destruct c as [[] [] [] [] [] [] [] []]; vm_compute; reflexivity. }
  rewrite <- H. apply bool_decide_eq_true.
Qed.

Lemma byte_val_of (z : Z) : 0 <= z < 256 -> byte_val (byte_of z) = z.
Proof.
  intros Hz. unfold byte_val, byte_of.
  rewrite N_ascii_embedding by lia. lia.
Qed.

(** A rune accepted by the three ranges is a character of the alphabet. *)
Lemma is_base62_rune_alphabet (r : Z) :
  is_base62_rune r = true
  <-> exists c, c ∈ bytes_of_string base62Chars /\ r = byte_val c.
Proof.
  split.
  - intros Hr. exists (byte_of r).
    assert (Hrange : 0 <= r < 256).
    { unfold is_base62_rune in Hr.
      repeat match type of Hr with
      | context [?a <=? ?b] => destruct (Z.leb_spec a b); simpl in Hr
      end; try done; lia. }
    split; [|by rewrite byte_val_of].
    apply is_base62_byte_alphabet. unfold is_base62_byte. by rewrite byte_val_of.
  - intros (c & Hc & ->). by apply is_base62_byte_alphabet in Hc.
Qed.

Lemma IsValidBase62_bytes (s : string) :
  IsValidBase62 s = true
  <-> s <> ""%string /\ Forall (fun c => is_base62_byte c = true) (bytes_of_string s).
Proof.
  unfold IsValidBase62, len, Utf8.runes_of_string.
  rewrite Utf8Facts.forallb_decode_all by done.
  destruct s as [|c s]; simpl.
  { split; [done | intros [? _]; done]. }
  unfold bytes_of_string. simpl.
  change (is_base62_rune (byte_val c)) with (is_base62_byte c).
  assert (Hf : forall l, forallb is_base62_rune (byte_val <$> l) = true
                         <-> Forall (fun c => is_base62_byte c = true) l).
  { induction l as [|x l IH]; simpl; [by split|].
    rewrite Forall_cons, andb_true_iff, IH. done. }
  rewrite Forall_cons, andb_true_iff, Hf.
  split; [by intros [? ?] | by intros [_ [? ?]]].
Qed.

End Base62Facts.

(** ** The store *)

Module StorageFacts.

Import Storage.

(** *** Indices *)

Section Indexed.

Context {K : Type} `{Countable K} (key : URL -> K).

Lemma indexed_empty : indexed key ∅ [].
Proof.
  split; [|done]. intros k p. rewrite lookup_empty. split; [done|].
  intros (r & Hr & _). by rewrite lookup_nil in Hr.
Qed.

Lemma indexed_fresh (m : gmap K nat) (h : list URL) (k : K) :
  indexed key m h -> (forall p r, h !! p = Some r -> key r <> k) -> m !! k = None.
Proof.
  intros [Hm _] Hfresh. destruct (m !! k) as [p|] eqn:E; [|done].
  apply Hm in E as (r & Hr & Hk). by destruct (Hfresh p r Hr).
Qed.

(** A new object under a key no object has yet. *)
Lemma indexed_insert (m : gmap K nat) (h : list URL) (u : URL) :
  indexed key m h ->
  (forall p r, h !! p = Some r -> key r <> key u) ->
  indexed key (<[key u := length h]> m) (h ++ [u]).
Proof.
  intros Hix Hfresh. pose proof (indexed_fresh m h (key u) Hix Hfresh) as Hnone.
  destruct Hix as [Hm Hsize]. split.
  - intros k p. rewrite lookup_insert. case_decide as Hk.
    + subst k. split.
      * intros [= <-]. exists u. by rewrite list_lookup_middle.
      * intros (r & Hr & Hkr).
        destruct (decide (p < length h)%nat) as [Hlt|Hge].
        -- rewrite lookup_app_l in Hr by done. by destruct (Hfresh p r Hr).
        -- apply lookup_lt_Some in Hr as Hlen. rewrite length_app in Hlen.
           simpl in Hlen. f_equal. lia.
    + rewrite Hm. split.
      * intros (r & Hr & Hkr). exists r. split; [|done].
        apply lookup_lt_Some in Hr as Hlen. by rewrite lookup_app_l.
      * intros (r & Hr & Hkr).
        destruct (decide (p < length h)%nat) as [Hlt|Hge].
        -- rewrite lookup_app_l in Hr by done. eauto.
        -- apply lookup_lt_Some in Hr as Hlen. rewrite length_app in Hlen.
           simpl in Hlen. assert (p = length h) as -> by lia.
           rewrite list_lookup_middle in Hr by done. congruence.
  - rewrite map_size_insert_None by done. rewrite length_app. simpl. lia.
Qed.

(** An update in place that keeps the key. *)
Lemma indexed_alter (m : gmap K nat) (h : list URL) (f : URL -> URL) (q : nat) :
  (forall r, key (f r) = key r) ->
  indexed key m h -> indexed key m (alter f q h).
Proof.
  intros Hf [Hm Hsize]. split; [|by rewrite length_alter].
  intros k p. rewrite Hm. destruct (decide (q = p)) as [->|Hne].
  - rewrite list_lookup_alter_eq. split.
    + intros (r & Hr & Hk). exists (f r). rewrite Hr. by rewrite Hf.
    + intros (r' & Hr & Hk). destruct (h !! p) as [r|]; [|done].
      simpl in Hr. injection Hr as <-. exists r. by rewrite <- Hf.
  - by rewrite list_lookup_alter_ne.
Qed.

(** The keys in use are the keys of the objects. *)
Lemma indexed_lookup (m : gmap K nat) (h : list URL) (p : nat) (r : URL) :
  indexed key m h -> h !! p = Some r -> m !! key r = Some p.
Proof. intros [Hm _] Hr. apply Hm. eauto. Qed.

Lemma indexed_allocated (m : gmap K nat) (h : list URL) (k : K) (p : nat) :
  indexed key m h -> m !! k = Some p -> exists r, h !! p = Some r /\ key r = k.
Proof. intros [Hm _] Hk. by apply Hm. Qed.

End Indexed.

(** *** The invariant *)

Lemma coherent_new : coherent NewMemoryStorage.
Proof.
  split; simpl; try apply indexed_empty; done.
Qed.

Lemma coherent_ID_below (s : MemoryStorage) (p : nat) (r : URL) :
  coherent s -> heap s !! p = Some r -> 1 <= ID r < nextID s.
Proof.
  intros Hc Hr. destruct (coh_record s Hc p r Hr) as [-> _].
  apply lookup_lt_Some in Hr. rewrite (coh_nextID s Hc). lia.
Qed.

(** The code of the next id is not in use: codes are encodings of
    ids, all ids in use are below the counter, and the encoding is
    injective. *)
Lemma next_code_fresh (s : MemoryStorage) (p : nat) (r : URL) :
  coherent s -> heap s !! p = Some r ->
  ShortCode r <> Base62.EncodeBase62 (nextID s).
Proof.
  intros Hc Hr Heq.
  pose proof (coherent_ID_below s p r Hc Hr) as Hid.
  pose proof (coh_range s Hc) as Hmax. unfold uint64_max in Hmax.
  destruct (coh_record s Hc p r Hr) as [_ Hcode]. rewrite Hcode in Heq.
  apply Base62Facts.EncodeBase62_inj in Heq; unfold is_uint64; lia.
Qed.

Lemma Save_existing (s : MemoryStorage) (originalURL : string) (now : Time) (p : nat) :
  urlsByOrig s !! originalURL = Some p ->
  Save originalURL now s = ((Some p, None), s).
Proof. intros H. unfold Save. by rewrite H. Qed.

Lemma Save_fresh (s : MemoryStorage) (originalURL : string) (now : Time) :
  urlsByOrig s !! originalURL = None ->
  Save originalURL now s
  = ((Some (length (heap s)), None),
     {| heap := heap s ++ [mkURL (nextID s) originalURL
                             (Base62.EncodeBase62 (nextID s)) now 0];
        urls := <[Base62.EncodeBase62 (nextID s) := length (heap s)]> (urls s);
        urlsByID := <[nextID s := length (heap s)]> (urlsByID s);
        urlsByOrig := <[originalURL := length (heap s)]> (urlsByOrig s);
        nextID := wrap64 (nextID s + 1) |}).
Proof. intros H. unfold Save. by rewrite H. Qed.

Lemma coherent_Save (s : MemoryStorage) (originalURL : string) (now : Time) :
  coherent s -> nextID s < uint64_max ->
  coherent (Save originalURL now s).2.
Proof.
  intros Hc Hlt.
  destruct (urlsByOrig s !! originalURL) as [p|] eqn:Horig.
  { by rewrite (Save_existing _ _ _ _ Horig). }
  rewrite (Save_fresh _ _ _ Horig). simpl.
  pose proof (coh_nextID s Hc) as Hnext.
  set (url := mkURL (nextID s) originalURL (Base62.EncodeBase62 (nextID s)) now 0).
  unfold uint64_max in Hlt.
  split; simpl.
  - rewrite wrap64_small by lia. rewrite length_app. simpl. lia.
  - rewrite wrap64_small by lia. unfold uint64_max. lia.
  - intros p r Hr.
    destruct (decide (p < length (heap s))%nat) as [Hp|Hp].
    + rewrite lookup_app_l in Hr by done. by apply (coh_record s Hc).
    + apply lookup_lt_Some in Hr as Hlen. rewrite length_app in Hlen. simpl in Hlen.
      assert (p = length (heap s)) as -> by lia.
      rewrite list_lookup_middle in Hr by done. injection Hr as <-.
      simpl. split; [lia | done].
  - apply (indexed_insert ShortCode _ _ url); [apply (coh_urls s Hc)|].
    intros p r Hr. simpl. by apply (next_code_fresh s p).
  - apply (indexed_insert ID _ _ url); [apply (coh_urlsByID s Hc)|].
    intros p r Hr. simpl. pose proof (coherent_ID_below s p r Hc Hr). lia.
  - apply (indexed_insert OriginalURL _ _ url); [apply (coh_urlsByOrig s Hc)|].
    intros p r Hr. simpl. intros Heq.
    pose proof (indexed_lookup OriginalURL _ _ p r (coh_urlsByOrig s Hc) Hr) as Hl.
    congruence.
Qed.

Lemma coherent_IncrementAccessCount (s : MemoryStorage) (shortCode : string) :
  coherent s -> coherent (IncrementAccessCount shortCode s).2.
Proof.
  intros Hc. unfold IncrementAccessCount.
  destruct (urls s !! shortCode) as [q|]; [|done]. simpl.
  split; simpl.
  - rewrite length_alter. apply (coh_nextID s Hc).
  - apply (coh_range s Hc).
  - intros p r Hr. destruct (decide (q = p)) as [->|Hne].
    + rewrite list_lookup_alter_eq in Hr.
      destruct (heap s !! p) as [r0|] eqn:Hr0; [|done].
      simpl in Hr. injection Hr as <-. by apply (coh_record s Hc p r0).
    + rewrite list_lookup_alter_ne in Hr by done. by apply (coh_record s Hc).
  - by apply indexed_alter; [|apply (coh_urls s Hc)].
  - by apply indexed_alter; [|apply (coh_urlsByID s Hc)].
  - by apply indexed_alter; [|apply (coh_urlsByOrig s Hc)].
Qed.

(** *** Access counts *)

Lemma IncrementAccessCount_found (s : MemoryStorage) (shortCode : string) (p : nat) :
  urls s !! shortCode = Some p ->
  IncrementAccessCount shortCode s
  = (None, {| heap := alter bump p (heap s); urls := urls s;
              urlsByID := urlsByID s; urlsByOrig := urlsByOrig s;
              nextID := nextID s |}).
Proof. intros H. unfold IncrementAccessCount. by rewrite H. Qed.

Lemma IncrementAccessCount_absent (s : MemoryStorage) (shortCode : string) :
  urls s !! shortCode = None ->
  IncrementAccessCount shortCode s = (Some storage_ErrURLNotFound, s).
Proof. intros H. unfold IncrementAccessCount. by rewrite H. Qed.

(** [K] increments add [K] to the count, modulo 2^64. *)
Lemma increment_times_count (K : nat) :
  forall (s : MemoryStorage) (shortCode : string) (p : nat) (r : URL),
    urls s !! shortCode = Some p -> heap s !! p = Some r ->
    is_uint64 (AccessCount r) ->
    heap (increment_times K shortCode s) !! p
    = Some (mkURL (ID r) (OriginalURL r) (ShortCode r) (CreatedAt r)
              (wrap64 (AccessCount r + Z.of_nat K))).
Proof.
  induction K as [|K IH]; intros s shortCode p r Hp Hr Hu.
  { simpl. rewrite Z.add_0_r, wrap64_small by done. by destruct r. }
  simpl. rewrite (IncrementAccessCount_found s shortCode p Hp). simpl.
  rewrite (IH _ shortCode p (bump r)); simpl.
  - do 2 f_equal. unfold wrap64.
    rewrite Zplus_mod_idemp_l. f_equal. lia.
  - done.
  - by rewrite list_lookup_alter_eq, Hr.
  - apply wrap64_range.
Qed.

Lemma nextID_Save (s : MemoryStorage) (originalURL : string) (now : Time) :
  coherent s -> nextID s < uint64_max ->
  nextID s <= nextID (Save originalURL now s).2 <= nextID s + 1.
Proof.
  intros Hc Hlt. pose proof (coh_nextID s Hc). unfold uint64_max in Hlt.
  unfold Save. destruct (urlsByOrig s !! originalURL); simpl; [lia|].
  rewrite wrap64_small; lia.
Qed.

Lemma nextID_IncrementAccessCount (s : MemoryStorage) (shortCode : string) :
  nextID (IncrementAccessCount shortCode s).2 = nextID s.
Proof. unfold IncrementAccessCount. by destruct (urls s !! shortCode). Qed.

Lemma coherent_step (s : MemoryStorage) (o : op) :
  coherent s -> nextID s < uint64_max ->
  coherent (step s o) /\ nextID (step s o) <= nextID s + 1.
Proof.
  intros Hc Hlt. pose proof (coh_nextID s Hc).
  destruct o as [u now|c|i|c]; simpl.
  - split; [by apply coherent_Save | by apply nextID_Save].
  - split; [done | lia].
  - split; [done | lia].
  - split; [by apply coherent_IncrementAccessCount|].
    rewrite nextID_IncrementAccessCount. lia.
Qed.

(** Every state reached before the id space is spent is coherent. *)
Lemma coherent_run (ops : list op) :
  forall s, coherent s -> nextID s + Z.of_nat (length ops) <= uint64_max ->
    coherent (run ops s) /\ nextID (run ops s) <= nextID s + Z.of_nat (length ops).
Proof.
  induction ops as [|o ops IH]; intros s Hc Hlen; simpl in *.
  { split; [done | lia]. }
  destruct (coherent_step s o Hc) as [Hc' Hn']; [lia|].
  destruct (IH (step s o) Hc') as [Hc'' Hn'']; [lia|].
  split; [done | lia].
Qed.

Lemma coherent_reachable (ops : list op) :
  Z.of_nat (length ops) < uint64_max -> coherent (run ops NewMemoryStorage).
Proof.
  intros Hlen. apply coherent_run; [apply coherent_new | simpl; lia].
Qed.

End StorageFacts.

(** * The specification, claim by claim *)

(** C1.  Round trip on the whole unsigned 64-bit range: decoding the
    code of [n] gives [n] back, and therefore two numbers with the same
    code are equal (distinct numbers have distinct codes). *)
Theorem base62_roundtrip (n m : Z) :
  is_uint64 n -> is_uint64 m ->
  Base62.DecodeBase62 (Base62.EncodeBase62 n) = n
  /\ (Base62.EncodeBase62 n = Base62.EncodeBase62 m -> n = m).
Proof.
  intros Hn Hm. split.
  - by apply Base62Facts.roundtrip.
  - by apply Base62Facts.EncodeBase62_inj.
Qed.

Lemma base62_roundtrip_witness :
  is_uint64 uint64_max /\ is_uint64 61
  /\ Base62.DecodeBase62 (Base62.EncodeBase62 uint64_max) = uint64_max
  /\ (Base62.EncodeBase62 uint64_max = Base62.EncodeBase62 61 -> uint64_max = 61).
Proof.
  assert (H1 : is_uint64 uint64_max) by (unfold is_uint64, uint64_max; lia).
  assert (H2 : is_uint64 61) by (unfold is_uint64; lia).
  split; [exact H1 | split; [exact H2 | exact (base62_roundtrip uint64_max 61 H1 H2)]].
Defined.

(** C2, as the specification states it, fails: the string ["12!"] has
    a byte out of the alphabet and [DecodeBase62] returns for it the
    number it returns for ["0"]. *)
Lemma DecodeBase62_invalid_counterexample :
  "!"%char ∈ bytes_of_string "12!"
  /\ is_base62_byte "!" = false
  /\ Base62.DecodeBase62 "12!" = 0
  /\ Base62.DecodeBase62 "0" = 0.
Proof.
  split; [|by vm_compute].
  unfold bytes_of_string. simpl. set_solver.
Qed.

(** C2, amended.  On every string with a byte out of the alphabet
    [DecodeBase62] returns 0, the number it returns for ["0"]; it has
    no error result.  Such a string is told apart by [IsValidBase62],
    which rejects it. *)
Theorem DecodeBase62_invalid_zero (s : string) :
  Exists (fun c => is_base62_byte c = false) (bytes_of_string s) ->
  Base62.DecodeBase62 s = 0
  /\ Base62.DecodeBase62 s = Base62.DecodeBase62 "0"
  /\ Base62.IsValidBase62 s = false.
Proof.
  intros Hex. rewrite (Base62Facts.DecodeBase62_invalid s Hex).
  split; [done | split; [done|]].
  destruct (Base62.IsValidBase62 s) eqn:Hv; [|done].
  apply Base62Facts.IsValidBase62_bytes in Hv as [_ Hall].
  apply Exists_exists in Hex as (c & Hc & Hbad).
  rewrite Forall_forall in Hall. specialize (Hall c Hc). congruence.
Qed.

Lemma DecodeBase62_invalid_zero_witness :
  Exists (fun c => is_base62_byte c = false) (bytes_of_string "12!")
  /\ Base62.DecodeBase62 "12!" = 0
  /\ Base62.DecodeBase62 "12!" = Base62.DecodeBase62 "0"
  /\ Base62.IsValidBase62 "12!" = false.
Proof.
  assert (H : Exists (fun c => is_base62_byte c = false) (bytes_of_string "12!")).
  { unfold bytes_of_string. simpl. do 2 apply Exists_cons_tl. by apply Exists_cons_hd. }
  split; [exact H | exact (DecodeBase62_invalid_zero "12!" H)].
Defined.

(** C8.  [IsValidBase62 s] holds exactly when [s] is not empty and all
    its characters are among the 62 of [base62Chars], whether the
    characters are counted as bytes or as the runes [range] yields; the
    empty string is rejected. *)
Theorem IsValidBase62_iff (s : string) :
  (Base62.IsValidBase62 s = true
   <-> s <> ""%string
       /\ Forall (fun c => c ∈ bytes_of_string Base62.base62Chars) (bytes_of_string s))
  /\ (Base62.IsValidBase62 s = true
      <-> s <> ""%string
          /\ Forall (fun r => exists c, c ∈ bytes_of_string Base62.base62Chars
                                        /\ r = byte_val c)
               (Utf8.runes_of_string s))
  /\ Base62.IsValidBase62 "" = false.
Proof.
  split; [|split; [|done]].
  - rewrite Base62Facts.IsValidBase62_bytes.
    apply and_iff_compat_l, Forall_proper; [|done].
    intros c. apply Base62Facts.is_base62_byte_alphabet.
  - unfold Base62.IsValidBase62, len.
    destruct s as [|c s]; [by split; [|intros [? _]]|].
    simpl String.length.
    destruct (Z.eqb_spec (Z.of_nat (S (String.length s))) 0) as [|_]; [lia|].
    rewrite forallb_forall, Forall_forall.
    split.
    + intros Hall. split; [done|]. intros r Hr.
      apply Base62Facts.is_base62_rune_alphabet, Hall. by apply list_elem_of_In.
    + intros [_ Hall] r Hr.
      apply Base62Facts.is_base62_rune_alphabet, Hall. by apply list_elem_of_In.
Qed.

(** C3.  [Save] is idempotent for each original URL.  A URL already in
    the index by original URL is answered with the stored object and
    nothing changes: no id is spent, no code is made, the number of
    records stays.  A second [Save] of any URL returns the object of
    the first and leaves the store of the first.  From a coherent
    store, two calls on a new URL add one record and spend one id. *)
Theorem Save_idempotent (s : Storage.MemoryStorage) (u : string) (t1 t2 : Time) :
  let first := Storage.Save u t1 s in
  let second := Storage.Save u t2 first.2 in
  (forall p, Storage.urlsByOrig s !! u = Some p -> first = ((Some p, None), s))
  /\ (exists p, first.1 = (Some p, None) /\ second.1 = (Some p, None)
                /\ Storage.deref second.2 p = Storage.deref first.2 p)
  /\ second.2 = first.2
  /\ (coherent s -> Storage.urlsByOrig s !! u = None ->
      size (Storage.urls second.2) = S (size (Storage.urls s))
      /\ length (Storage.heap second.2) = S (length (Storage.heap s))
      /\ (Storage.nextID s < uint64_max ->
          Storage.nextID second.2 = Storage.nextID s + 1)).
Proof.
  intros first second.
  assert (Hex : exists p, first.1 = (Some p, None)
                          /\ Storage.urlsByOrig first.2 !! u = Some p).
  { subst first. destruct (Storage.urlsByOrig s !! u) as [p|] eqn:Horig.
    - rewrite (StorageFacts.Save_existing _ _ _ _ Horig). eauto.
    - rewrite (StorageFacts.Save_fresh _ _ _ Horig). simpl.
      eexists. split; [done|]. apply lookup_insert_eq. }
  destruct Hex as (p & Hp1 & Hp2).
  assert (Hsecond : second = ((Some p, None), first.2)).
  { subst second. by apply StorageFacts.Save_existing. }
  split; [|split; [|split]].
  - intros q Hq. by apply StorageFacts.Save_existing.
  - exists p. by rewrite Hsecond.
  - by rewrite Hsecond.
  - intros Hc Horig. rewrite Hsecond. simpl. subst first.
    rewrite (StorageFacts.Save_fresh _ _ _ Horig). simpl.
    split; [|split].
    + apply map_size_insert_None.
      apply (StorageFacts.indexed_fresh ShortCode _ (Storage.heap s));
        [apply (coh_urls s Hc)|].
      intros q r Hr. by apply (StorageFacts.next_code_fresh s q).
    + rewrite length_app. simpl. lia.
    + intros Hlt. pose proof (coh_nextID s Hc). unfold uint64_max in Hlt.
      apply wrap64_small. lia.
Qed.

Lemma Save_idempotent_witness :
  let s := Storage.NewMemoryStorage in
  let first := Storage.Save "https://x.com" 5 s in
  let second := Storage.Save "https://x.com" 9 first.2 in
  coherent s /\ Storage.urlsByOrig s !! "https://x.com"%string = None
  /\ second.2 = first.2
  /\ size (Storage.urls second.2) = 1%nat.
Proof.
  intros s first second.
  pose proof (Save_idempotent s "https://x.com" 5 9) as (_ & _ & Hsame & Hnew).
  split; [apply StorageFacts.coherent_new|].
  split; [reflexivity|].
  split; [exact Hsame|].
  exact (proj1 (Hnew StorageFacts.coherent_new eq_refl)).
Defined.

(** C4, as the specification states it, fails: after one [Save] and
    one access the statistics have the two entries [total_urls] and
    [next_id] and no third one, although one access was counted. *)
Lemma GetStats_counterexample :
  let s := (Storage.IncrementAccessCount "1"
              (Storage.Save "https://x.com" 5 Storage.NewMemoryStorage).2).2 in
  AccessCount (Storage.deref s 0) = 1
  /\ Storage.GetStats s
     = <["total_urls"%string := Storage.stat_int 1]>
         (<["next_id"%string := Storage.stat_uint64 2]> ∅)
  /\ size (Storage.GetStats s) = 2%nat
  /\ Storage.GetStats s !! "total_accesses"%string = None.
Proof. by vm_compute. Qed.

(** C4, amended.  [GetStats] returns exactly two entries, both read
    from the one state it is called on: [total_urls], the size of the
    index by code, which in a coherent store is the number of stored
    records, and [next_id], the id counter.  It has no entry for the
    accesses. *)
Theorem GetStats_two_fields (s : Storage.MemoryStorage) :
  Storage.GetStats s !! "total_urls"%string
  = Some (Storage.stat_int (Z.of_nat (size (Storage.urls s))))
  /\ Storage.GetStats s !! "next_id"%string
     = Some (Storage.stat_uint64 (Storage.nextID s))
  /\ (forall k v, Storage.GetStats s !! k = Some v ->
        k = "total_urls"%string \/ k = "next_id"%string)
  /\ size (Storage.GetStats s) = 2%nat
  /\ (coherent s -> size (Storage.urls s) = length (Storage.heap s)).
Proof.
  unfold Storage.GetStats. split; [|split; [|split; [|split]]].
  - by rewrite lookup_insert_eq.
  - by rewrite lookup_insert_ne, lookup_insert_eq.
  - intros k v. rewrite !lookup_insert. repeat case_decide; subst; auto.
    by rewrite lookup_empty.
  - rewrite !map_size_insert_None; [done | done |].
    by rewrite lookup_insert_ne.
  - intros Hc. apply (coh_urls s Hc).
Qed.

(** C5.  Ids are given in order from 1.  In the store reached from a
    new one by any calls, fewer than 2^64 - 1 of them, the objects lie
    in the heap in the order of their creation and the [k]-th of them
    has id [k]: the ids grow strictly with the order of creation and no
    id is given twice.  A [Save] of a URL not yet stored, made at any
    point of the run, creates the next object, whose id is the number
    of objects so far plus one, above all ids given before; a [Save]
    of a stored URL creates nothing. *)
Theorem ids_sequential (ops : list Storage.op) :
  Z.of_nat (length ops) < uint64_max ->
  let s := Storage.run ops Storage.NewMemoryStorage in
  (forall k r, Storage.heap s !! k = Some r -> ID r = Z.of_nat k + 1)
  /\ (forall j k rj rk, Storage.heap s !! j = Some rj -> Storage.heap s !! k = Some rk ->
        (j < k)%nat -> ID rj < ID rk)
  /\ (forall j k rj rk, Storage.heap s !! j = Some rj -> Storage.heap s !! k = Some rk ->
        ID rj = ID rk -> j = k)
  /\ (forall u now,
        let s' := (Storage.Save u now s).2 in
        match Storage.urlsByOrig s !! u with
        | None =>
            exists r, Storage.heap s' = Storage.heap s ++ [r]
                      /\ (Storage.Save u now s).1 = (Some (length (Storage.heap s)), None)
                      /\ ID r = Z.of_nat (length (Storage.heap s)) + 1
                      /\ Forall (fun r' => ID r' < ID r) (Storage.heap s)
        | Some _ => Storage.heap s' = Storage.heap s
        end).
Proof.
  intros Hlen s.
  pose proof (StorageFacts.coherent_reachable ops Hlen) as Hc. fold s in Hc.
  assert (Hid : forall k r, Storage.heap s !! k = Some r -> ID r = Z.of_nat k + 1).
  { intros k r Hr. by apply (coh_record s Hc). }
  split; [done|]. split; [|split].
  - intros j k rj rk Hj Hk Hlt. rewrite (Hid j rj Hj), (Hid k rk Hk). lia.
  - intros j k rj rk Hj Hk Heq. rewrite (Hid j rj Hj), (Hid k rk Hk) in Heq. lia.
  - intros u now s'. subst s'.
    destruct (Storage.urlsByOrig s !! u) as [p|] eqn:Horig.
    + by rewrite (StorageFacts.Save_existing _ _ _ _ Horig).
    + rewrite (StorageFacts.Save_fresh _ _ _ Horig). simpl.
      eexists. split; [done|]. split; [done|]. simpl.
      split; [apply (coh_nextID s Hc)|].
      apply Forall_lookup. intros k r Hr.
      pose proof (StorageFacts.coherent_ID_below s k r Hc Hr). lia.
Qed.

Lemma ids_sequential_witness :
  let ops := [Storage.OpSave "https://a.com" 1; Storage.OpSave "https://b.com" 2;
              Storage.OpSave "https://a.com" 3; Storage.OpIncrementAccessCount "1";
              Storage.OpSave "https://c.com" 4] in
  Z.of_nat (length ops) < uint64_max
  /\ ID <$> Storage.heap (Storage.run ops Storage.NewMemoryStorage) = [1; 2; 3]
  /\ (forall k r, Storage.heap (Storage.run ops Storage.NewMemoryStorage) !! k = Some r ->
        ID r = Z.of_nat k + 1).
Proof.
  intros ops.
  assert (H : Z.of_nat (length ops) < uint64_max) by (unfold uint64_max; simpl; lia).
  split; [exact H|]. split; [by vm_compute|].
  exact (proj1 (ids_sequential ops H)).
Defined.

(** C6.  [IncrementAccessCount] on a code of the index by code adds
    one to the access count of the object of this code (as a [uint64]:
    exactly one below the largest value) and changes nothing else: not
    the other fields of the object, no other object, none of the three
    maps, not the counter.  [K] calls in a row on a new record leave
    the count [K].  On a code that is not in the index it returns the
    not-found error and the store is unchanged. *)
Theorem IncrementAccessCount_frame (s : Storage.MemoryStorage) (shortCode : string) :
  let err := (Storage.IncrementAccessCount shortCode s).1 in
  let s' := (Storage.IncrementAccessCount shortCode s).2 in
  (forall p r, Storage.urls s !! shortCode = Some p -> Storage.heap s !! p = Some r ->
     err = None
     /\ Storage.heap s' !! p
        = Some (mkURL (ID r) (OriginalURL r) (ShortCode r) (CreatedAt r)
                  (wrap64 (AccessCount r + 1)))
     /\ (0 <= AccessCount r < uint64_max -> wrap64 (AccessCount r + 1) = AccessCount r + 1)
     /\ (forall q, q <> p -> Storage.heap s' !! q = Storage.heap s !! q)
     /\ length (Storage.heap s') = length (Storage.heap s)
     /\ Storage.urls s' = Storage.urls s
     /\ Storage.urlsByID s' = Storage.urlsByID s
     /\ Storage.urlsByOrig s' = Storage.urlsByOrig s
     /\ Storage.nextID s' = Storage.nextID s
     /\ (forall K : nat, AccessCount r = 0 -> Z.of_nat K <= uint64_max ->
           AccessCount (Storage.deref (Storage.increment_times K shortCode s) p)
           = Z.of_nat K))
  /\ (Storage.urls s !! shortCode = None ->
      err = Some storage_ErrURLNotFound /\ s' = s).
Proof.
  intros err s'. subst err s'. split.
  - intros p r Hp Hr. rewrite (StorageFacts.IncrementAccessCount_found s _ p Hp). simpl.
    split; [done|]. split; [by rewrite list_lookup_alter_eq, Hr|].
    split; [intros Hr0; unfold uint64_max in Hr0; apply wrap64_small; lia|].
    split; [intros q Hq; by rewrite list_lookup_alter_ne|].
    split; [by rewrite length_alter|].
    do 4 (split; [done|]).
    intros K Hzero HK. unfold Storage.deref.
    rewrite (StorageFacts.increment_times_count K s shortCode p r Hp Hr)
      by (rewrite Hzero; unfold is_uint64; lia).
    simpl. rewrite Hzero. unfold uint64_max in HK.
    apply wrap64_small. lia.
  - intros Hp. by rewrite (StorageFacts.IncrementAccessCount_absent s _ Hp).
Qed.

Lemma IncrementAccessCount_frame_witness :
  let s := (Storage.Save "https://x.com" 5 Storage.NewMemoryStorage).2 in
  Storage.urls s !! "1"%string = Some 0%nat
  /\ Storage.heap s !! 0%nat = Some (mkURL 1 "https://x.com" "1" 5 0)
  /\ Storage.heap (Storage.IncrementAccessCount "1" s).2 !! 0%nat
     = Some (mkURL 1 "https://x.com" "1" 5 1)
  /\ AccessCount (Storage.deref (Storage.increment_times 3 "1" s) 0) = 3
  /\ Storage.urls s !! "zz"%string = None
  /\ Storage.IncrementAccessCount "zz" s = (Some storage_ErrURLNotFound, s).
Proof.
  intros s.
  assert (Hp : Storage.urls s !! "1"%string = Some 0%nat) by reflexivity.
  assert (Hr : Storage.heap s !! 0%nat = Some (mkURL 1 "https://x.com" "1" 5 0))
    by reflexivity.
  assert (Hz : Storage.urls s !! "zz"%string = None) by reflexivity.
  destruct (IncrementAccessCount_frame s "1") as [Hfound _].
  destruct (Hfound 0%nat _ Hp Hr) as (_ & Hheap & _ & _ & _ & _ & _ & _ & _ & HK).
  destruct (IncrementAccessCount_frame s "zz") as [_ Habsent].
  destruct (Habsent Hz) as [Herr Hs].
  split; [exact Hp|]. split; [exact Hr|]. split; [exact Hheap|].
  split; [apply (HK 3%nat); [reflexivity | unfold uint64_max; simpl; lia]|].
  split; [exact Hz|].
  rewrite <- Hs at 2. rewrite <- Herr. by destruct (Storage.IncrementAccessCount "zz" s).
Defined.

(** C7.  The failures of a lookup are typed and distinct.  On a code
    that [IsValidBase62] rejects, [GetOriginalURL] and [GetURLInfo]
    return [ErrInvalidShortCode], and on no other; on an accepted code
    that is not in the index they return [ErrURLNotFound], and on no
    other; in both cases with the empty result and the store as it
    was.  The storage answers a code or an id it does not hold with a
    nil pointer and its own [ErrURLNotFound].  The two errors are
    different values. *)
Theorem lookup_errors_typed (config : Services.Config) (s : Storage.MemoryStorage)
    (shortCode : string) (id : Z) :
  ((Services.GetOriginalURL shortCode s).1.2 = Some services_ErrInvalidShortCode
   <-> Base62.IsValidBase62 shortCode = false)
  /\ ((Services.GetURLInfo config shortCode s).2 = Some services_ErrInvalidShortCode
      <-> Base62.IsValidBase62 shortCode = false)
  /\ ((Services.GetOriginalURL shortCode s).1.2 = Some services_ErrURLNotFound
      <-> Base62.IsValidBase62 shortCode = true /\ Storage.urls s !! shortCode = None)
  /\ ((Services.GetURLInfo config shortCode s).2 = Some services_ErrURLNotFound
      <-> Base62.IsValidBase62 shortCode = true /\ Storage.urls s !! shortCode = None)
  /\ (Base62.IsValidBase62 shortCode = false ->
      Services.GetOriginalURL shortCode s
      = ((""%string, Some services_ErrInvalidShortCode), s)
      /\ Services.GetURLInfo config shortCode s = (None, Some services_ErrInvalidShortCode))
  /\ (Base62.IsValidBase62 shortCode = true -> Storage.urls s !! shortCode = None ->
      Services.GetOriginalURL shortCode s = ((""%string, Some services_ErrURLNotFound), s)
      /\ Services.GetURLInfo config shortCode s = (None, Some services_ErrURLNotFound))
  /\ (Storage.urls s !! shortCode = None ->
      Storage.GetByShortCode shortCode s = (None, Some storage_ErrURLNotFound))
  /\ (Storage.urlsByID s !! id = None ->
      Storage.GetByID id s = (None, Some storage_ErrURLNotFound))
  /\ services_ErrInvalidShortCode <> services_ErrURLNotFound
  /\ services_ErrInvalidShortCode <> storage_ErrURLNotFound.
Proof.
  unfold Services.GetOriginalURL, Services.GetURLInfo,
    Storage.GetByShortCode, Storage.GetByID.
  destruct (Base62.IsValidBase62 shortCode) eqn:Hv; simpl;
    destruct (Storage.urls s !! shortCode) as [p|] eqn:Hp; simpl;
    destruct (Storage.urlsByID s !! id) as [q|] eqn:Hq; simpl;
    repeat split; try done; try (intros [? ?]; done).
Qed.

Lemma lookup_errors_typed_witness :
  let s := (Storage.Save "https://x.com" 5 Storage.NewMemoryStorage).2 in
  Base62.IsValidBase62 "test@code" = false
  /\ Services.GetOriginalURL "test@code" s
     = ((""%string, Some services_ErrInvalidShortCode), s)
  /\ Base62.IsValidBase62 "nonexistent" = true
  /\ Storage.urls s !! "nonexistent"%string = None
  /\ Services.GetOriginalURL "nonexistent" s
     = ((""%string, Some services_ErrURLNotFound), s)
  /\ Storage.urlsByID s !! 99999 = None
  /\ Storage.GetByID 99999 s = (None, Some storage_ErrURLNotFound).
Proof.
  intros s.
  assert (H1 : Base62.IsValidBase62 "test@code" = false) by reflexivity.
  assert (H2 : Base62.IsValidBase62 "nonexistent" = true) by reflexivity.
  assert (H3 : Storage.urls s !! "nonexistent"%string = None) by reflexivity.
  assert (H4 : Storage.urlsByID s !! 99999 = None) by reflexivity.
  pose proof (lookup_errors_typed {| Services.BaseURL := "http://localhost:8080" |}
                s "test@code" 99999) as (_ & _ & _ & _ & Hbad & _ & _ & Hid & _).
  pose proof (lookup_errors_typed {| Services.BaseURL := "http://localhost:8080" |}
                s "nonexistent" 99999) as (_ & _ & _ & _ & _ & Habsent & _).
  split; [exact H1|]. split; [exact (proj1 (Hbad H1))|].
  split; [exact H2|]. split; [exact H3|]. split; [exact (proj1 (Habsent H2 H3))|].
  split; [exact H4 | exact (Hid H4)].
Defined.

(** C9.  [Save] never fails: in every store and for every string it
    returns a pointer that is not nil and a nil error, and in a
    coherent store the pointer is to a stored object.  No call on the
    storage and no lookup of the service returns [ErrURLExists]. *)
Theorem Save_never_fails (config : Services.Config) (s : Storage.MemoryStorage)
    (originalURL : string) (now : Time) (o : Storage.op) (shortCode : string) :
  (exists p, (Storage.Save originalURL now s).1 = (Some p, None)
             /\ (coherent s ->
                 is_Some (Storage.heap (Storage.Save originalURL now s).2 !! p)))
  /\ Storage.op_error s o <> Some storage_ErrURLExists
  /\ (Services.GetOriginalURL shortCode s).1.2 <> Some storage_ErrURLExists
  /\ (Services.GetURLInfo config shortCode s).2 <> Some storage_ErrURLExists.
Proof.
  split; [|split; [|split]].
  - destruct (Storage.urlsByOrig s !! originalURL) as [p|] eqn:Horig.
    + rewrite (StorageFacts.Save_existing _ _ _ _ Horig). exists p. split; [done|].
      intros Hc. simpl.
      destruct (StorageFacts.indexed_allocated OriginalURL _ _ _ _
                  (coh_urlsByOrig s Hc) Horig) as (r & Hr & _).
      by rewrite Hr.
    + rewrite (StorageFacts.Save_fresh _ _ _ Horig). eexists. split; [done|].
      intros _. simpl. by rewrite list_lookup_middle.
  - destruct o as [u t|c|i|c]; simpl.
    + unfold Storage.Save. by destruct (Storage.urlsByOrig s !! u).
    + unfold Storage.GetByShortCode. by destruct (Storage.urls s !! c).
    + unfold Storage.GetByID. by destruct (Storage.urlsByID s !! i).
    + unfold Storage.IncrementAccessCount. by destruct (Storage.urls s !! c).
  - unfold Services.GetOriginalURL, Storage.GetByShortCode.
    destruct (Base62.IsValidBase62 shortCode); simpl; [|done].
    by destruct (Storage.urls s !! shortCode).
  - unfold Services.GetURLInfo, Storage.GetByShortCode.
    destruct (Base62.IsValidBase62 shortCode); simpl; [|done].
    by destruct (Storage.urls s !! shortCode).
Qed.

(** C10.  The three maps stay coherent.  In the store reached from a
    new one by any calls, fewer than 2^64 - 1 of them: the three maps
    hold the same set of objects, all the stored ones; every stored
    object is found under its own code, id and original URL, in the
    three maps, and its code is the encoding of its id; the ids in use
    are exactly 1 .. nextID - 1; and nextID is the number of records
    plus one. *)
Theorem index_coherence (ops : list Storage.op) :
  Z.of_nat (length ops) < uint64_max ->
  let s := Storage.run ops Storage.NewMemoryStorage in
  (forall p, (exists c, Storage.urls s !! c = Some p) <-> is_Some (Storage.heap s !! p))
  /\ (forall p, (exists i, Storage.urlsByID s !! i = Some p)
                <-> is_Some (Storage.heap s !! p))
  /\ (forall p, (exists u, Storage.urlsByOrig s !! u = Some p)
                <-> is_Some (Storage.heap s !! p))
  /\ (forall p r, Storage.heap s !! p = Some r ->
        Storage.urls s !! ShortCode r = Some p
        /\ Storage.urlsByID s !! ID r = Some p
        /\ Storage.urlsByOrig s !! OriginalURL r = Some p
        /\ ShortCode r = Base62.EncodeBase62 (ID r))
  /\ (forall c p, Storage.urls s !! c = Some p -> ShortCode (Storage.deref s p) = c)
  /\ (forall i p, Storage.urlsByID s !! i = Some p -> ID (Storage.deref s p) = i)
  /\ (forall u p, Storage.urlsByOrig s !! u = Some p ->
        OriginalURL (Storage.deref s p) = u)
  /\ (forall i, is_Some (Storage.urlsByID s !! i) <-> 1 <= i <= Storage.nextID s - 1)
  /\ Storage.nextID s = Z.of_nat (size (Storage.urls s)) + 1
  /\ size (Storage.urlsByID s) = size (Storage.urls s)
  /\ size (Storage.urlsByOrig s) = size (Storage.urls s).
Proof.
  intros Hlen s.
  pose proof (StorageFacts.coherent_reachable ops Hlen) as Hc. fold s in Hc.
  destruct (coh_urls s Hc) as [Hu Hsu].
  destruct (coh_urlsByID s Hc) as [Hi Hsi].
  destruct (coh_urlsByOrig s Hc) as [Ho Hso].
  assert (Himg : forall (K : Type) `{Countable K} (key : URL -> K) (m : gmap K nat),
             indexed key m (Storage.heap s) ->
             forall p, (exists k, m !! k = Some p) <-> is_Some (Storage.heap s !! p)).
  { intros K ? ? key m [Hm _] p. split.
    - intros (k & Hk). apply Hm in Hk as (r & Hr & _). eauto.
    - intros (r & Hr). exists (key r). apply Hm. eauto. }
  assert (Hkey : forall (K : Type) `{Countable K} (key : URL -> K) (m : gmap K nat),
             indexed key m (Storage.heap s) ->
             forall k p, m !! k = Some p -> key (Storage.deref s p) = k).
  { intros K ? ? key m [Hm _] k p Hk. apply Hm in Hk as (r & Hr & Hkr).
    unfold Storage.deref. by rewrite Hr. }
  split; [apply (Himg _ _ _ ShortCode), (coh_urls s Hc)|].
  split; [apply (Himg _ _ _ ID), (coh_urlsByID s Hc)|].
  split; [apply (Himg _ _ _ OriginalURL), (coh_urlsByOrig s Hc)|].
  split.
  { intros p r Hr. split; [apply Hu; eauto|]. split; [apply Hi; eauto|].
    split; [apply Ho; eauto|]. by apply (coh_record s Hc p r). }
  split; [apply (Hkey _ _ _ ShortCode), (coh_urls s Hc)|].
  split; [apply (Hkey _ _ _ ID), (coh_urlsByID s Hc)|].
  split; [apply (Hkey _ _ _ OriginalURL), (coh_urlsByOrig s Hc)|].
  split.
  { intros i. rewrite (coh_nextID s Hc). split.
    - intros (p & Hp). apply Hi in Hp as (r & Hr & <-).
      destruct (coh_record s Hc p r Hr) as [-> _].
      apply lookup_lt_Some in Hr. lia.
    - intros Hrange.
      destruct (lookup_lt_is_Some_2 (Storage.heap s) (Z.to_nat (i - 1))) as [r Hr]; [lia|].
      exists (Z.to_nat (i - 1)). apply Hi. exists r. split; [done|].
      destruct (coh_record s Hc _ r Hr) as [-> _]. lia. }
  rewrite (coh_nextID s Hc), Hsu, Hsi, Hso. done.
Qed.

Lemma index_coherence_witness :
  let ops := [Storage.OpSave "https://a.com" 1; Storage.OpSave "https://b.com" 2;
              Storage.OpGetByShortCode "1"; Storage.OpSave "https://a.com" 3;
              Storage.OpIncrementAccessCount "2"; Storage.OpGetByID 2] in
  let s := Storage.run ops Storage.NewMemoryStorage in
  Z.of_nat (length ops) < uint64_max
  /\ Storage.nextID s = 3
  /\ Storage.nextID s = Z.of_nat (size (Storage.urls s)) + 1
  /\ (forall i, is_Some (Storage.urlsByID s !! i) <-> 1 <= i <= Storage.nextID s - 1).
Proof.
  intros ops s.
  assert (H : Z.of_nat (length ops) < uint64_max) by (unfold uint64_max; simpl; lia).
  pose proof (index_coherence ops H) as (_ & _ & _ & _ & _ & _ & _ & Hids & Hnext & _).
  split; [exact H|]. split; [reflexivity|]. split; [exact Hnext | exact Hids].
Defined.

(** * Further properties of the code *)

(** ** The encoder *)

Module Base62More.

Import Base62 Base62Facts.

Lemma alphabet_is_base62 (d : Z) :
  0 <= d < 62 -> is_base62_byte (base62Chars_at d) = true.
Proof.
  intros Hd.
  by apply (check_below (fun d => is_base62_byte (base62Chars_at d)) 62) in Hd.
Qed.

Lemma digits_nonempty (fuel : nat) (num : Z) :
  0 < num -> digits (S fuel) num <> [].
Proof.
  intros Hn. cbn [digits]. destruct (Z.ltb_spec 0 num); [done | lia].
Qed.

Lemma digits_length (fuel : nat) :
  forall (num : Z) (k : nat),
    0 <= num < base ^ Z.of_nat k -> (length (digits fuel num) <= k)%nat.
Proof.
  induction fuel as [|fuel IH]; intros num k Hn; simpl; [lia|].
  destruct (Z.ltb_spec 0 num); simpl; [|lia].
  destruct k as [|k]; [simpl in Hn; lia|].
  apply le_n_S, IH.
  rewrite Nat2Z.inj_succ, Z.pow_succ_r in Hn by lia. unfold base in *.
  split; [apply Z.div_pos; lia | apply Z.div_lt_upper_bound; lia].
Qed.

(** The digit written last, the most significant one, is not 0. *)
Lemma digits_last_nonzero (fuel : nat) :
  forall (num : Z),
    num < base ^ Z.of_nat fuel -> last (digits fuel num) <> Some 0.
Proof.
  induction fuel as [|fuel IH]; intros num Hn; simpl; [done|].
  destruct (Z.ltb_spec 0 num) as [Hpos|]; [|done].
  assert (Hlt : num / base < base ^ Z.of_nat fuel).
  { rewrite Nat2Z.inj_succ, Z.pow_succ_r in Hn by lia. unfold base in *.
    apply Z.div_lt_upper_bound; lia. }
  specialize (IH (num / base) Hlt).
  destruct (digits fuel (num / base)) as [|d ds] eqn:Hds.
  - simpl. intros [= Hz].
    assert (num / base <= 0).
    { destruct fuel; simpl in *; [lia|].
      destruct (Z.ltb_spec 0 (num / base)); [done | lia]. }
    unfold base in *.
    pose proof (Z.div_mod num 62 ltac:(lia)).
    assert (0 <= num / 62) by (apply Z.div_pos; lia). lia.
  - by rewrite last_cons_cons.
Qed.

Lemma base62Chars_at_zero (d : Z) :
  0 <= d < 62 -> base62Chars_at d = "0"%char -> d = 0.
Proof.
  intros Hd.
  apply (check_below
           (fun d => bool_decide (base62Chars_at d = "0"%char -> d = 0)) 62) in Hd;
    [by apply bool_decide_eq_true in Hd | by vm_compute].
Qed.

Lemma head_rev {A : Type} (l : list A) : head (rev l) = last l.
Proof.
  induction l as [|x l IH] using rev_ind; [done|].
  by rewrite rev_app_distr, last_snoc.
Qed.

(** The code of a number is canonical and has at most 11 characters. *)
Lemma EncodeBase62_canonical (num : Z) :
  is_uint64 num ->
  canonical (EncodeBase62 num) /\ (1 <= String.length (EncodeBase62 num) <= 11)%nat.
Proof.
  intros [Hlo Hhi].
  destruct (Z.eq_dec num 0) as [->|Hne].
  { split; [split; [done | by left] | simpl; lia]. }
  rewrite EncodeBase62_digits by lia.
  pose proof (uint64_below_fuel num (conj Hlo Hhi)) as Hfuel.
  assert (Hne' : digits 64 num <> []) by (apply (digits_nonempty 63); lia).
  split; [split|].
  - apply IsValidBase62_bytes. split.
    + intros Hempty.
      apply (f_equal bytes_of_string) in Hempty.
      rewrite bytes_of_string_of_bytes in Hempty.
      apply (f_equal (@rev ascii)) in Hempty. rewrite rev_involutive in Hempty.
      by apply fmap_nil_inv in Hempty.
    + rewrite bytes_of_string_of_bytes. apply Forall_rev, Forall_fmap.
      eapply Forall_impl; [apply digits_range|].
      intros d Hd. by apply alphabet_is_base62.
  - right. rewrite bytes_of_string_of_bytes, head_rev.
    pose proof (digits_last_nonzero 64 num Hfuel) as Hlast.
    pose proof (digits_range 64 num) as Hrange.
    rewrite fmap_last. destruct (last (digits 64 num)) as [d|] eqn:El; [|done].
    simpl. intros [= Hz].
    apply last_Some in El as (l' & El). rewrite El in Hrange.
    apply Forall_app in Hrange as [_ Hd]. inversion Hd; subst.
    apply Hlast. f_equal. by apply base62Chars_at_zero.
  - assert (Hlen : String.length (string_of_bytes (rev (base62Chars_at <$> digits 64 num)))
                   = length (digits 64 num)).
    { rewrite <- (length_fmap base62Chars_at), <- length_rev.
      generalize (rev (base62Chars_at <$> digits 64 num)).
      induction l as [|c l IH]; simpl; [done | by rewrite IH]. }
    rewrite Hlen.
    pose proof (digits_length 64 num 11) as Hle.
    split.
    + destruct (digits 64 num); [done | cbn [length]; lia].
    + apply Hle. split; [lia|]. eapply Z.lt_trans; [exact Hhi | by vm_compute].
Qed.

(** *** The value that [DecodeBase62] computes *)

Lemma value_lsb_rev (l : list ascii) :
  value_lsb (rev l) = foldl (fun value c => value * base + digit_of c) 0 l.
Proof.
  induction l as [|c l IH] using rev_ind; [done|].
  rewrite rev_app_distr, foldl_snoc. simpl. rewrite IH. lia.
Qed.

Lemma digit_of_range (c : ascii) : 0 <= digit_of c < 62.
Proof.
  unfold digit_of, digit_value.
  repeat match goal with
  | |- context [?a <=? ?b] => destruct (Z.leb_spec a b); simpl
  end; lia.
Qed.

Lemma value_lsb_range (l : list ascii) : 0 <= value_lsb l < base ^ Z.of_nat (length l).
Proof.
  induction l as [|c l IH]; [simpl; lia|].
  cbn [value_lsb length]. rewrite Nat2Z.inj_succ, Z.pow_succ_r by lia.
  pose proof (digit_of_range c). unfold base in *. lia.
Qed.

Lemma digit_value_valid (c : ascii) :
  is_base62_byte c = true -> digit_value (byte_val c) = Some (digit_of c).
Proof.
  intros Hc. unfold digit_of.
  destruct (digit_value (byte_val c)) eqn:E; [done|].
  apply digit_value_None in E. unfold is_base62_byte in Hc. congruence.
Qed.

(** On digits of the alphabet the loop of [DecodeBase62] adds
    [power] times their value, modulo 2^64. *)
Lemma decode_fold_value (l : list ascii) :
  forall (result power : Z),
    Forall (fun c => is_base62_byte c = true) l ->
    is_uint64 result ->
    decode_fold l result power = wrap64 (result + power * value_lsb l).
Proof.
  induction l as [|c l IH]; intros result power Hall Hr.
  { simpl. rewrite Z.mul_0_r, Z.add_0_r. symmetry. by apply wrap64_small. }
  inversion Hall as [|? ? Hc Hl]; subst.
  cbn [decode_fold value_lsb]. rewrite (digit_value_valid c Hc).
  rewrite IH by (done || apply wrap64_range).
  unfold wrap64, base.
  rewrite Zplus_mod_idemp_r.
  rewrite <- (Zplus_mod_idemp_r (_ mod _ * _)), Zmult_mod_idemp_l.
  rewrite Zplus_mod_idemp_r, Zplus_mod_idemp_l.
  f_equal. lia.
Qed.

Lemma DecodeBase62_value (s : string) :
  Forall (fun c => is_base62_byte c = true) (bytes_of_string s) ->
  DecodeBase62 s = wrap64 (base62_value s).
Proof.
  intros Hall. rewrite <- (string_of_bytes_of_string s) at 1.
  rewrite DecodeBase62_fold, decode_fold_value.
  - rewrite Z.add_0_l, Z.mul_1_l. unfold base62_value. by rewrite value_lsb_rev.
  - by apply Forall_rev.
  - unfold is_uint64. lia.
Qed.

(** A digit ["0"] in front changes nothing. *)
Lemma decode_fold_zero (l : list ascii) :
  forall (result power : Z),
    is_uint64 result ->
    decode_fold (l ++ ["0"%char]) result power = decode_fold l result power.
Proof.
  induction l as [|c l IH]; intros result power Hr.
  { simpl. change (byte_val "0" - 48) with 0. rewrite Z.mul_0_l.
    rewrite (wrap64_small 0) by lia. rewrite Z.add_0_r. by apply wrap64_small. }
  simpl. destruct (digit_value (byte_val c)); [|done].
  apply IH, wrap64_range.
Qed.

(** *** Encoding a decoded code *)

Lemma base62Chars_at_digit_of (c : ascii) :
  is_base62_byte c = true -> base62Chars_at (digit_of c) = c.
Proof.
  intros Hc.
  assert (H : bool_decide (is_base62_byte c = true -> base62Chars_at (digit_of c) = c)
              = true).
  { destruct c as [[] [] [] [] [] [] [] []]; vm_compute; reflexivity. }
  apply bool_decide_eq_true in H. by apply H.
Qed.

Lemma digit_of_zero (c : ascii) :
  is_base62_byte c = true -> digit_of c = 0 -> c = "0"%char.
Proof.
  intros Hc Hz. rewrite <- (base62Chars_at_digit_of c Hc), Hz. done.
Qed.

(** The digits of the value of a list of digits whose last one is not
    0 are these digits. *)
Lemma digits_value_lsb (l : list ascii) :
  forall (fuel : nat),
    (length l <= fuel)%nat ->
    Forall (fun c => is_base62_byte c = true) l ->
    last l <> Some "0"%char ->
    base62Chars_at <$> digits fuel (value_lsb l) = l.
Proof.
  pose proof base62Chars_at_digit_of as Hat.
  pose proof digit_of_zero as Hzero.
  induction l as [|c l IH]; intros fuel Hlen Hall Hlast.
  { simpl. destruct fuel; done. }
  inversion Hall as [|? ? Hc Hl]; subst.
  destruct fuel as [|fuel]; [simpl in Hlen; lia|].
  cbn [value_lsb digits].
  pose proof (digit_of_range c) as Hd.
  pose proof (value_lsb_range l) as [Hv _].
  assert (Hpos : 0 < digit_of c + base * value_lsb l).
  { destruct l as [|c' l'].
    - simpl in *. destruct (Z.eq_dec (digit_of c) 0) as [Hz|]; [|lia].
      destruct Hlast. f_equal. by apply Hzero.
    - assert (0 < value_lsb (c' :: l')); [|unfold base; lia].
      destruct (Z.eq_dec (value_lsb (c' :: l')) 0) as [Hz|]; [|lia].
      exfalso.
      assert (Hall0 : forall m, Forall (fun c => is_base62_byte c = true) m ->
                value_lsb m = 0 -> Forall (fun c => c = "0"%char) m).
      { induction m as [|x m IHm]; intros Hm Hval; [done|].
        inversion Hm; subst. cbn [value_lsb] in Hval.
        pose proof (digit_of_range x). pose proof (value_lsb_range m).
        unfold base in *. constructor; [apply Hzero; [done | lia] | apply IHm; [done | lia]]. }
      specialize (Hall0 (c' :: l') Hl Hz).
      rewrite last_cons_cons in Hlast.
      destruct (last (c' :: l')) as [x|] eqn:El; [|by apply last_None in El].
      apply last_Some in El as (m & El). rewrite El in Hall0.
      apply Forall_app in Hall0 as [_ Hx]. inversion Hx; subst. done. }
  destruct (Z.ltb_spec 0 (digit_of c + base * value_lsb l)); [|lia].
  unfold base in *.
  replace ((digit_of c + 62 * value_lsb l) mod 62) with (digit_of c)
    by (Z.to_euclidean_division_equations; lia).
  replace ((digit_of c + 62 * value_lsb l) / 62) with (value_lsb l)
    by (Z.to_euclidean_division_equations; lia).
  rewrite fmap_cons, Hat by done. f_equal.
  destruct l as [|c' l'].
  - simpl. destruct fuel; simpl; [done|]. done.
  - apply IH; [simpl in *; lia | done | by rewrite last_cons_cons in Hlast].
Qed.

Lemma EncodeBase62_DecodeBase62 (s : string) :
  canonical s -> base62_value s < 2 ^ 64 -> EncodeBase62 (DecodeBase62 s) = s.
Proof.
  intros [Hvalid Hcanon] Hbound.
  apply IsValidBase62_bytes in Hvalid as [Hne Hall].
  destruct Hcanon as [->|Hhead]; [done|].
  rewrite DecodeBase62_value by done.
  assert (Hval : base62_value s = value_lsb (rev (bytes_of_string s))).
  { unfold base62_value. by rewrite value_lsb_rev. }
  pose proof (value_lsb_range (rev (bytes_of_string s))) as [Hv _].
  rewrite wrap64_small by lia. rewrite Hval in *.
  assert (Hfuel : value_lsb (rev (bytes_of_string s)) < base ^ Z.of_nat 64).
  { apply uint64_below_fuel. unfold is_uint64. lia. }
  assert (Hdigits : base62Chars_at <$> digits 64 (value_lsb (rev (bytes_of_string s)))
                    = rev (bytes_of_string s)).
  { set (l := rev (bytes_of_string s)) in *.
    assert (Hlast : last l <> Some "0"%char).
    { subst l. rewrite <- head_rev, rev_involutive. done. }
    assert (HallL : Forall (fun c => is_base62_byte c = true) l) by by apply Forall_rev.
    destruct (le_lt_dec (length l) 64) as [Hle|Hgt]; [by apply digits_value_lsb|].
    exfalso.
    (* more than 64 digits with a leading digit that is not 0: too large *)
    assert (Hbig : forall m, Forall (fun c => is_base62_byte c = true) m ->
              last m <> Some "0"%char -> m <> [] ->
              base ^ Z.of_nat (length m - 1) <= value_lsb m).
    { clear. induction m as [|c m IHm]; intros Hm Hl Hn; [done|].
      inversion Hm as [|? ? Hc Hm']; subst.
      destruct (decide (m = [])) as [->|Hne].
      - simpl. destruct (Z.eq_dec (digit_of c) 0) as [Hz|Hnz].
        + destruct Hl. simpl. f_equal. by apply digit_of_zero.
        + pose proof (digit_of_range c). lia.
      - assert (Hl' : last m <> Some "0"%char)
          by (destruct m; [done | by rewrite last_cons_cons in Hl]).
        specialize (IHm Hm' Hl' Hne).
        cbn [value_lsb]. pose proof (digit_of_range c).
        replace (length (c :: m) - 1)%nat with (S (length m - 1))
          by (destruct m; [done | simpl; lia]).
        rewrite Nat2Z.inj_succ, Z.pow_succ_r by lia. unfold base in *. lia. }
    specialize (Hbig l HallL Hlast ltac:(by destruct l; [simpl in Hgt; lia|])).
    assert (base ^ Z.of_nat 64 <= base ^ Z.of_nat (length l - 1)).
    { apply Z.pow_le_mono_r; [done | lia]. }
    lia. }
  rewrite EncodeBase62_digits.
  - rewrite Hdigits, rev_involutive. apply string_of_bytes_of_string.
  - split; [|lia].
    destruct (Z.eq_dec (value_lsb (rev (bytes_of_string s))) 0) as [Hz|]; [|lia].
    exfalso. rewrite Hz in Hdigits.
    assert (Hnil : rev (bytes_of_string s) = []) by (rewrite <- Hdigits; done).
    apply (f_equal (@rev ascii)) in Hnil. rewrite rev_involutive in Hnil.
    simpl in Hnil. apply Hne. rewrite <- (string_of_bytes_of_string s), Hnil. done.
Qed.

End Base62More.

(** ** The store, continued *)

Module StorageMore.

Import Storage StorageFacts.

(** In a coherent store the id of an object is a [uint64] from 1 on
    and its code passes [IsValidBase62]. *)
Lemma coherent_record_valid (s : MemoryStorage) (p : nat) (r : URL) :
  coherent s -> heap s !! p = Some r ->
  1 <= ID r <= uint64_max /\ Base62.IsValidBase62 (ShortCode r) = true.
Proof.
  intros Hc Hr.
  pose proof (coherent_ID_below s p r Hc Hr) as Hid.
  pose proof (coh_range s Hc) as Hmax.
  split; [lia|].
  destruct (coh_record s Hc p r Hr) as [_ ->].
  apply Base62More.EncodeBase62_canonical.
  unfold is_uint64, uint64_max in *. lia.
Qed.

(** What [Save] returns, on both of its paths. *)
Lemma Save_result (s : MemoryStorage) (originalURL : string) (now : Time) :
  coherent s ->
  exists p r,
    (Save originalURL now s).1 = (Some p, None)
    /\ heap (Save originalURL now s).2 !! p = Some r
    /\ OriginalURL r = originalURL
    /\ ShortCode r = Base62.EncodeBase62 (ID r)
    /\ 1 <= ID r <= uint64_max
    /\ urls (Save originalURL now s).2 !! ShortCode r = Some p
    /\ urlsByID (Save originalURL now s).2 !! ID r = Some p
    /\ urlsByOrig (Save originalURL now s).2 !! originalURL = Some p.
Proof.
  intros Hc.
  destruct (urlsByOrig s !! originalURL) as [p|] eqn:Horig.
  - rewrite (Save_existing _ _ _ _ Horig). simpl.
    destruct (indexed_allocated OriginalURL _ _ _ _ (coh_urlsByOrig s Hc) Horig)
      as (r & Hr & Hu).
    exists p, r. split; [done|]. split; [done|]. split; [done|].
    split; [by apply (coh_record s Hc p r)|].
    split; [by apply (coherent_record_valid s p r)|].
    split; [by apply (indexed_lookup ShortCode _ _ p r (coh_urls s Hc))|].
    split; [by apply (indexed_lookup ID _ _ p r (coh_urlsByID s Hc))|done].
  - rewrite (Save_fresh _ _ _ Horig). simpl.
    eexists _, _. split; [done|]. split; [by rewrite list_lookup_middle|]. simpl.
    split; [done|]. split; [done|].
    split; [pose proof (coh_nextID s Hc); pose proof (coh_range s Hc); lia|].
    by rewrite !lookup_insert_eq.
Qed.

(** [Save] keeps what is stored: every object and every entry of the
    three maps. *)
Lemma Save_keeps (s : MemoryStorage) (originalURL : string) (now : Time) :
  coherent s ->
  (forall p r, heap s !! p = Some r -> heap (Save originalURL now s).2 !! p = Some r)
  /\ (forall c p, urls s !! c = Some p -> urls (Save originalURL now s).2 !! c = Some p)
  /\ (forall i p, urlsByID s !! i = Some p ->
        urlsByID (Save originalURL now s).2 !! i = Some p)
  /\ (forall u p, urlsByOrig s !! u = Some p ->
        urlsByOrig (Save originalURL now s).2 !! u = Some p).
Proof.
  intros Hc.
  destruct (urlsByOrig s !! originalURL) as [q|] eqn:Horig.
  { by rewrite (Save_existing _ _ _ _ Horig). }
  rewrite (Save_fresh _ _ _ Horig). simpl.
  split; [|split; [|split]].
  - intros p r Hr. apply lookup_lt_Some in Hr as Hlt. by rewrite lookup_app_l.
  - intros c p Hp. rewrite lookup_insert_ne; [done|]. intros <-.
    destruct (indexed_allocated ShortCode _ _ _ _ (coh_urls s Hc) Hp) as (r & Hr & Hk).
    by apply (next_code_fresh s p r Hc Hr).
  - intros i p Hp. rewrite lookup_insert_ne; [done|]. intros <-.
    destruct (indexed_allocated ID _ _ _ _ (coh_urlsByID s Hc) Hp) as (r & Hr & Hk).
    pose proof (coherent_ID_below s p r Hc Hr). lia.
  - intros u p Hp. rewrite lookup_insert_ne; [done|]. intros <-. congruence.
Qed.

(** The codes in use are the codes of the ids 1 .. nextID - 1. *)
Lemma coherent_codes (s : MemoryStorage) (c : string) :
  coherent s ->
  is_Some (urls s !! c)
  <-> exists i, 1 <= i < nextID s /\ c = Base62.EncodeBase62 i.
Proof.
  intros Hc. split.
  - intros (p & Hp).
    destruct (indexed_allocated ShortCode _ _ _ _ (coh_urls s Hc) Hp) as (r & Hr & <-).
    exists (ID r). split; [by apply (coherent_ID_below s p r)|].
    by apply (coh_record s Hc p r).
  - intros (i & Hi & ->). rewrite (coh_nextID s Hc) in Hi.
    destruct (lookup_lt_is_Some_2 (heap s) (Z.to_nat (i - 1))) as [r Hr]; [lia|].
    exists (Z.to_nat (i - 1)).
    destruct (coh_record s Hc _ r Hr) as [Hid Hcode].
    assert (Hi' : i = ID r) by lia. rewrite Hi' at 1. rewrite <- Hcode.
    by apply (indexed_lookup ShortCode _ _ _ r (coh_urls s Hc)).
Qed.

(** *** All records *)

Lemma GetAllURLs_length (s : MemoryStorage) :
  length (GetAllURLs s) = size (urls s).
Proof. unfold GetAllURLs. by rewrite length_fmap, length_map_to_list. Qed.

Lemma GetAllURLs_elem (s : MemoryStorage) (p : nat) :
  p ∈ GetAllURLs s <-> exists c, urls s !! c = Some p.
Proof.
  unfold GetAllURLs. rewrite list_elem_of_fmap. split.
  - intros ([c q] & -> & Hin). exists c. by apply elem_of_map_to_list.
  - intros (c & Hc). exists (c, p). split; [done|]. by apply elem_of_map_to_list.
Qed.

Lemma GetAllURLs_permutation (s : MemoryStorage) :
  coherent s -> GetAllURLs s ≡ₚ seq 0 (length (heap s)).
Proof.
  intros Hc. apply NoDup_Permutation.
  - unfold GetAllURLs. apply NoDup_fmap_2_strong; [|apply NoDup_map_to_list].
    intros [c1 p1] [c2 p2] H1 H2 Heq. simpl in Heq. subst p2.
    apply elem_of_map_to_list in H1, H2.
    destruct (indexed_allocated ShortCode _ _ _ _ (coh_urls s Hc) H1) as (r1 & Hr1 & <-).
    destruct (indexed_allocated ShortCode _ _ _ _ (coh_urls s Hc) H2) as (r2 & Hr2 & <-).
    congruence.
  - apply NoDup_seq.
  - intros p. rewrite GetAllURLs_elem, elem_of_seq. split.
    + intros (c & Hp).
      destruct (indexed_allocated ShortCode _ _ _ _ (coh_urls s Hc) Hp) as (r & Hr & _).
      apply lookup_lt_Some in Hr. lia.
    + intros [_ Hlt]. destruct (lookup_lt_is_Some_2 (heap s) p) as [r Hr]; [lia|].
      exists (ShortCode r). by apply (indexed_lookup ShortCode _ _ p r (coh_urls s Hc)).
Qed.

(** *** The account of the accesses *)

Lemma wrap64_add_l (a b : Z) : wrap64 (wrap64 a + b) = wrap64 (a + b).
Proof. unfold wrap64. by rewrite Zplus_mod_idemp_l. Qed.

(** An object of the store keeps its fields through a run, but for
    its access count, which grows by the calls of
    [IncrementAccessCount] on its code that succeed. *)
Lemma run_allocated (ops : list op) :
  forall (s : MemoryStorage) (p : nat) (r : URL),
    coherent s -> nextID s + Z.of_nat (length ops) <= uint64_max ->
    heap s !! p = Some r -> is_uint64 (AccessCount r) ->
    heap (run ops s) !! p
    = Some (mkURL (ID r) (OriginalURL r) (ShortCode r) (CreatedAt r)
              (wrap64 (AccessCount r + Z.of_nat (hits (ShortCode r) ops s)))).
Proof.
  induction ops as [|o ops IH]; intros s p r Hc Hlen Hr Hu.
  { simpl. rewrite Z.add_0_r, wrap64_small by done. by destruct r. }
  destruct (coherent_step s o Hc) as [Hc1 Hn1]; [simpl in Hlen; lia|].
  assert (Hlen1 : nextID (step s o) + Z.of_nat (length ops) <= uint64_max)
    by (simpl in Hlen; lia).
  change (run (o :: ops) s) with (run ops (step s o)).
  cbn [hits].
  destruct o as [u now|c|i|c].
  - (* Save *)
    destruct (Save_keeps s u now Hc) as (Hkeep & _).
    rewrite (IH (step s (OpSave u now)) p r Hc1 Hlen1 (Hkeep p r Hr) Hu).
    done.
  - by rewrite (IH _ p r Hc1 Hlen1 Hr Hu).
  - by rewrite (IH _ p r Hc1 Hlen1 Hr Hu).
  - (* IncrementAccessCount *)
    pose proof (indexed_lookup ShortCode _ _ p r (coh_urls s Hc) Hr) as Hcode.
    destruct (urls s !! c) as [q|] eqn:Hq.
    + assert (Hstep : heap (step s (OpIncrementAccessCount c)) = alter bump q (heap s)).
      { simpl. by rewrite (IncrementAccessCount_found s c q Hq). }
      assert (Herr : op_error s (OpIncrementAccessCount c) = None).
      { simpl. by rewrite (IncrementAccessCount_found s c q Hq). }
      destruct (decide (c = ShortCode r)) as [->|Hne].
      * assert (q = p) as -> by congruence.
        rewrite (IH _ p (bump r) Hc1 Hlen1).
        -- rewrite Herr. case_decide; [|done].
           cbn [ID OriginalURL ShortCode CreatedAt AccessCount bump].
           do 2 f_equal. rewrite wrap64_add_l. f_equal. lia.
        -- rewrite Hstep. by rewrite list_lookup_alter_eq, Hr.
        -- apply wrap64_range.
      * assert (q <> p).
        { intros ->.
          destruct (indexed_allocated ShortCode _ _ _ _ (coh_urls s Hc) Hq)
            as (r0 & Hr0 & Hk). congruence. }
        rewrite (IH _ p r Hc1 Hlen1); [done | | done].
        rewrite Hstep. by rewrite list_lookup_alter_ne.
    + assert (Hstep : step s (OpIncrementAccessCount c) = s).
      { simpl. by rewrite (IncrementAccessCount_absent s c Hq). }
      assert (c <> ShortCode r) by congruence.
      rewrite Hstep in *. rewrite (IH _ p r Hc1 Hlen1 Hr Hu).
      by case_decide.
Qed.

Lemma hits_bound (shortCode : string) (ops : list op) :
  forall s, (hits shortCode ops s <= length ops)%nat.
Proof.
  induction ops as [|o ops IH]; intros s; simpl; [lia|].
  specialize (IH (step s o)).
  destruct o; repeat case_decide; lia.
Qed.

(** The heap only grows. *)
Lemma run_heap_grows (ops : list op) :
  forall (s : MemoryStorage),
    coherent s -> nextID s + Z.of_nat (length ops) <= uint64_max ->
    (length (heap s) <= length (heap (run ops s)))%nat.
Proof.
  induction ops as [|o ops IH]; intros s Hc Hlen; [done|].
  destruct (coherent_step s o Hc) as [Hc1 Hn1]; [simpl in Hlen; lia|].
  change (run (o :: ops) s) with (run ops (step s o)).
  etransitivity; [|apply IH; [done | simpl in Hlen; lia]].
  destruct o as [u now|c|i|c]; simpl; try done.
  - unfold Save. destruct (urlsByOrig s !! u); simpl; [done|].
    rewrite length_app. simpl. lia.
  - unfold IncrementAccessCount. destruct (urls s !! c); simpl; [|done].
    by rewrite length_alter.
Qed.

(** An object created in the run has counted the successful calls on
    its code; a call on its code before its creation fails. *)
Lemma run_created (ops : list op) :
  forall (s : MemoryStorage) (p : nat) (r' : URL),
    coherent s -> nextID s + Z.of_nat (length ops) <= uint64_max ->
    heap s !! p = None -> heap (run ops s) !! p = Some r' ->
    AccessCount r' = wrap64 (Z.of_nat (hits (ShortCode r') ops s)).
Proof.
  induction ops as [|o ops IH]; intros s p r' Hc Hlen Hnone Hr'.
  { simpl in Hr'. congruence. }
  destruct (coherent_step s o Hc) as [Hc1 Hn1]; [simpl in Hlen; lia|].
  assert (Hlen1 : nextID (step s o) + Z.of_nat (length ops) <= uint64_max)
    by (simpl in Hlen; lia).
  change (run (o :: ops) s) with (run ops (step s o)) in Hr'.
  (* the code of [r'] is not in use in [s] *)
  assert (Hfree : urls s !! ShortCode r' = None).
  { destruct (urls s !! ShortCode r') as [q|] eqn:Hq; [|done]. exfalso.
    destruct (indexed_allocated ShortCode _ _ _ _ (coh_urls s Hc) Hq) as (r0 & Hr0 & Hk).
    destruct (coherent_run (o :: ops) s Hc Hlen) as [Hcf _].
    change (run (o :: ops) s) with (run ops (step s o)) in Hcf.
    pose proof (indexed_lookup ShortCode _ _ p r' (coh_urls _ Hcf) Hr') as Hp.
    assert (Hq' : exists r1, heap (run ops (step s o)) !! q = Some r1
                             /\ ShortCode r1 = ShortCode r').
    { destruct (lookup_lt_is_Some_2 (heap (run ops (step s o))) q) as [r1 Hr1].
      - apply lookup_lt_Some in Hr0.
        pose proof (run_heap_grows (o :: ops) s Hc Hlen) as Hg.
        change (run (o :: ops) s) with (run ops (step s o)) in Hg. lia.
      - exists r1. split; [done|].
        destruct (coh_record _ Hcf q r1 Hr1) as [Hid1 Hcode1].
        destruct (coh_record s Hc q r0 Hr0) as [Hid0 Hcode0].
        rewrite Hcode1, Hid1, <- Hid0, <- Hcode0. done. }
    destruct Hq' as (r1 & Hr1 & Hk1).
    pose proof (indexed_lookup ShortCode _ _ q r1 (coh_urls _ Hcf) Hr1) as Hq1.
    rewrite Hk1, Hp in Hq1. injection Hq1 as ->. congruence. }
  cbn [hits].
  destruct (heap (step s o) !! p) as [r1|] eqn:Hr1.
  - (* created by this call, a [Save] *)
    destruct o as [u now|c|i|c]; simpl in Hr1; try congruence.
    + unfold Save in Hr1. destruct (urlsByOrig s !! u) eqn:Horig; simpl in Hr1;
        [congruence|].
      apply lookup_ge_None in Hnone.
      apply lookup_lt_Some in Hr1 as Hlt. rewrite length_app in Hlt. simpl in Hlt.
      assert (p = length (heap s)) as -> by lia.
      rewrite list_lookup_middle in Hr1 by done. injection Hr1 as <-.
      pose proof (run_allocated ops (step s (OpSave u now)) (length (heap s))
                    (mkURL (nextID s) u (Base62.EncodeBase62 (nextID s)) now 0)
                    Hc1 Hlen1) as Hrun.
      rewrite Hr' in Hrun. simpl in Hrun.
      assert (Hfresh : Save u now s
                = ((Some (length (heap s)), None), step s (OpSave u now))).
      { simpl. unfold Save. by rewrite Horig. }
      assert (Hcell : heap (step s (OpSave u now)) !! length (heap s)
                = Some (mkURL (nextID s) u (Base62.EncodeBase62 (nextID s)) now 0)).
      { simpl. unfold Save. rewrite Horig. simpl. by rewrite list_lookup_middle. }
      specialize (Hrun Hcell ltac:(unfold is_uint64; simpl; lia)).
      injection Hrun as ->. simpl. done.
    + unfold IncrementAccessCount in Hr1. destruct (urls s !! c); simpl in Hr1;
        [|congruence].
      destruct (decide (n = p)) as [->|Hne].
      * rewrite list_lookup_alter_eq, Hnone in Hr1. done.
      * rewrite list_lookup_alter_ne in Hr1 by done. congruence.
  - rewrite (IH (step s o) p r' Hc1 Hlen1 Hr1 Hr').
    destruct o as [u now|c|i|c]; try done.
    case_decide as Hcode; [|done]. subst c.
    simpl. by rewrite (IncrementAccessCount_absent s _ Hfree).
Qed.

End StorageMore.

(** ** The service *)

Module ServicesFacts.

Import Storage Services StorageFacts.

(** *** Short URLs *)

Lemma bytes_of_string_app (a b : string) :
  bytes_of_string (a +:+ b) = bytes_of_string a ++ bytes_of_string b.
Proof.
  unfold bytes_of_string. induction a as [|c a IH]; [done|].
  simpl. by rewrite <- IH.
Qed.

Lemma string_of_bytes_app (a b : list ascii) :
  string_of_bytes (a ++ b) = (string_of_bytes a +:+ string_of_bytes b)%string.
Proof.
  unfold string_of_bytes. induction a as [|c a IH]; [done|].
  simpl. by rewrite IH.
Qed.

(** Trimming removes slashes only, and all of them. *)
Lemma trim_slashes_spec (l : list ascii) :
  exists k, l = replicate k "/"%char ++ trim_slashes l
            /\ head (trim_slashes l) <> Some "/"%char.
Proof.
  induction l as [|c l (k & Hl & Hhead)]; [by exists O|].
  simpl. case_decide as Hc.
  - subst c. exists (S k). split; [|done]. simpl. by rewrite <- Hl.
  - exists O. split; [done|]. simpl. congruence.
Qed.

Lemma trim_slashes_replicate (k : nat) (l : list ascii) :
  trim_slashes (replicate k "/"%char ++ l) = trim_slashes l.
Proof.
  induction k as [|k IH]; [done|].
  cbn [replicate app trim_slashes]. by rewrite decide_True.
Qed.

Lemma trim_slashes_id (l : list ascii) :
  head l <> Some "/"%char -> trim_slashes l = l.
Proof.
  destruct l as [|c l]; [done|]. simpl. intros Hc. case_decide; [congruence | done].
Qed.

Lemma rev_replicate {A : Type} (k : nat) (x : A) : rev (replicate k x) = replicate k x.
Proof.
  induction k as [|k IH]; [done|].
  simpl. rewrite IH. clear IH.
  induction k as [|k IH]; [done|]. simpl. by rewrite IH.
Qed.

Lemma last_rev {A : Type} (l : list A) : last (rev l) = head l.
Proof. destruct l as [|x l]; [done|]. simpl. by rewrite last_snoc. Qed.

(** [TrimRight]: the string is the result followed by slashes, and the
    result does not end with a slash. *)
Lemma TrimRight_slash_spec (b : string) :
  exists k, b = (TrimRight_slash b +:+ string_of_bytes (replicate k "/"%char))%string
            /\ last (bytes_of_string (TrimRight_slash b)) <> Some "/"%char.
Proof.
  unfold TrimRight_slash.
  destruct (trim_slashes_spec (rev (bytes_of_string b))) as (k & Hl & Hhead).
  exists k. split.
  - rewrite <- string_of_bytes_app.
    rewrite <- (rev_replicate k "/"%char), <- rev_app_distr, <- Hl, rev_involutive.
    symmetry. apply string_of_bytes_of_string.
  - by rewrite bytes_of_string_of_bytes, last_rev.
Qed.

Lemma TrimRight_slash_slashes (b : string) (k : nat) :
  TrimRight_slash (b +:+ string_of_bytes (replicate k "/"%char)) = TrimRight_slash b.
Proof.
  unfold TrimRight_slash.
  rewrite bytes_of_string_app, bytes_of_string_of_bytes, rev_app_distr.
  by rewrite rev_replicate, trim_slashes_replicate.
Qed.

Lemma TrimRight_slash_id (b : string) :
  last (bytes_of_string b) <> Some "/"%char -> TrimRight_slash b = b.
Proof.
  intros Hlast. unfold TrimRight_slash.
  rewrite trim_slashes_id by (by rewrite <- (rev_involutive (bytes_of_string b)),
                                last_rev in Hlast).
  rewrite rev_involutive. apply string_of_bytes_of_string.
Qed.

(** *** Lookups that succeed *)

Lemma GetOriginalURL_found (s : MemoryStorage) (shortCode : string) (p : nat) (r : URL) :
  coherent s -> urls s !! shortCode = Some p -> heap s !! p = Some r ->
  GetOriginalURL shortCode s
  = ((OriginalURL r, None), (IncrementAccessCount shortCode s).2).
Proof.
  intros Hc Hp Hr.
  destruct (indexed_allocated ShortCode _ _ _ _ (coh_urls s Hc) Hp) as (r0 & Hr0 & Hk).
  assert (r0 = r) as -> by congruence.
  destruct (StorageMore.coherent_record_valid s p r Hc Hr) as [_ Hvalid].
  unfold GetOriginalURL, GetByShortCode. rewrite <- Hk, Hvalid, Hk, Hp. simpl.
  rewrite (IncrementAccessCount_found s shortCode p Hp). simpl.
  unfold deref. simpl. by rewrite list_lookup_alter_eq, Hr.
Qed.

Lemma GetURLInfo_found (config : Config) (s : MemoryStorage) (shortCode : string)
    (p : nat) (r : URL) :
  coherent s -> urls s !! shortCode = Some p -> heap s !! p = Some r ->
  GetURLInfo config shortCode s
  = (Some {| info_ID := ID r; info_OriginalURL := OriginalURL r;
             info_ShortCode := ShortCode r;
             info_ShortURL := buildShortURL config (ShortCode r);
             info_CreatedAt := CreatedAt r; info_AccessCount := AccessCount r |}, None).
Proof.
  intros Hc Hp Hr.
  destruct (indexed_allocated ShortCode _ _ _ _ (coh_urls s Hc) Hp) as (r0 & Hr0 & Hk).
  assert (r0 = r) as -> by congruence.
  destruct (StorageMore.coherent_record_valid s p r Hc Hr) as [_ Hvalid].
  subst shortCode.
  unfold GetURLInfo, GetByShortCode, deref. rewrite Hvalid, Hp. simpl.
  by rewrite Hr.
Qed.

(** *** ShortenURL *)

Lemma validateURL_error (lib : Library) (rawURL : string) (err : error) :
  validateURL lib rawURL = Some err -> err = services_ErrInvalidURL.
Proof.
  unfold validateURL.
  repeat match goal with
  | |- context [if ?c then _ else _] => destruct c
  | |- context [match ?x with Some _ => _ | None => _ end] => destruct x
  end; congruence.
Qed.

Lemma ShortenURL_invalid (lib : Library) (config : Config) (originalURL : string)
    (now : Time) (s : MemoryStorage) :
  validateURL lib originalURL <> None ->
  ShortenURL lib config originalURL now s = ((None, Some services_ErrInvalidURL), s).
Proof.
  intros Hv. unfold ShortenURL.
  destruct (validateURL lib originalURL) as [err|] eqn:E; [|done].
  by rewrite (validateURL_error _ _ _ E).
Qed.

Lemma ShortenURL_valid (lib : Library) (config : Config) (originalURL : string)
    (now : Time) (s : MemoryStorage) :
  validateURL lib originalURL = None ->
  exists p,
    (Save (normalizeURL lib originalURL) now s).1 = (Some p, None)
    /\ ShortenURL lib config originalURL now s
       = ((Some {| resp_ID := ID (deref (Save (normalizeURL lib originalURL) now s).2 p);
                   resp_OriginalURL :=
                     OriginalURL (deref (Save (normalizeURL lib originalURL) now s).2 p);
                   resp_ShortCode :=
                     ShortCode (deref (Save (normalizeURL lib originalURL) now s).2 p);
                   resp_ShortURL :=
                     buildShortURL config
                       (ShortCode (deref (Save (normalizeURL lib originalURL) now s).2 p));
                   resp_CreatedAt :=
                     CreatedAt (deref (Save (normalizeURL lib originalURL) now s).2 p) |},
           None), (Save (normalizeURL lib originalURL) now s).2).
Proof.
  intros Hv. unfold ShortenURL. rewrite Hv.
  assert (Hs : exists p, (Save (normalizeURL lib originalURL) now s).1 = (Some p, None)).
  { unfold Save. destruct (urlsByOrig s !! normalizeURL lib originalURL); simpl; eauto. }
  destruct Hs as (p & Hp). exists p. split; [done|]. by rewrite Hp.
Qed.

End ServicesFacts.

(** * Further properties, one by one *)

(** X1.  Every code that [EncodeBase62] makes passes [IsValidBase62],
    has from 1 to 11 characters, and does not start with ["0"] unless
    the number is 0, whose code is ["0"]. *)
Theorem EncodeBase62_well_formed (num : Z) :
  is_uint64 num ->
  Base62.IsValidBase62 (Base62.EncodeBase62 num) = true
  /\ (1 <= String.length (Base62.EncodeBase62 num) <= 11)%nat
  /\ (num <> 0 ->
      head (bytes_of_string (Base62.EncodeBase62 num)) <> Some "0"%char)
  /\ (Base62.EncodeBase62 num = "0"%string <-> num = 0).
Proof.
  intros Hn.
  destruct (Base62More.EncodeBase62_canonical num Hn) as [[Hvalid Hcanon] Hlen].
  assert (Hzero : Base62.EncodeBase62 num = "0"%string <-> num = 0).
  { split; [|by intros ->].
    intros Heq. apply (Base62Facts.EncodeBase62_inj num 0); [done | |done].
    unfold is_uint64. lia. }
  split; [done|]. split; [done|]. split; [|done].
  intros Hne. destruct Hcanon as [Heq|Hhead]; [|done].
  by apply Hzero in Heq.
Qed.

Lemma EncodeBase62_well_formed_witness :
  is_uint64 uint64_max
  /\ Base62.IsValidBase62 (Base62.EncodeBase62 uint64_max) = true
  /\ (1 <= String.length (Base62.EncodeBase62 uint64_max) <= 11)%nat.
Proof.
  assert (H : is_uint64 uint64_max) by (unfold is_uint64, uint64_max; lia).
  destruct (EncodeBase62_well_formed uint64_max H) as (Hv & Hl & _).
  split; [exact H | split; [exact Hv | exact Hl]].
Defined.

(** X2.  On a string of characters of the alphabet, the empty one
    included, [DecodeBase62] returns the number the string denotes in
    base 62 reduced modulo 2^64: a number that does not fit 64 bits
    wraps around without any sign of it.  Up to 10 characters nothing
    wraps. *)
Theorem DecodeBase62_value_mod (s : string) :
  Forall (fun c => is_base62_byte c = true) (bytes_of_string s) ->
  Base62.DecodeBase62 s = base62_value s mod 2 ^ 64
  /\ ((String.length s <= 10)%nat -> Base62.DecodeBase62 s = base62_value s).
Proof.
  intros Hall. rewrite (Base62More.DecodeBase62_value s Hall).
  split; [done|]. intros Hlen.
  apply wrap64_small.
  unfold base62_value. rewrite <- Base62More.value_lsb_rev.
  pose proof (Base62More.value_lsb_range (rev (bytes_of_string s))) as [Hlo Hhi].
  split; [done|]. eapply Z.lt_le_trans; [exact Hhi|].
  rewrite length_rev.
  assert (Hl : length (bytes_of_string s) = String.length s).
  { unfold bytes_of_string. clear. induction s as [|c s IH]; simpl; [done | by rewrite IH]. }
  rewrite Hl. transitivity (Base62.base ^ 10); [|by vm_compute].
  apply Z.pow_le_mono_r; [done | lia].
Qed.

Lemma DecodeBase62_value_mod_witness :
  Forall (fun c => is_base62_byte c = true) (bytes_of_string "lYGhA16ahyg")
  /\ base62_value "lYGhA16ahyg" = 2 ^ 64
  /\ Base62.DecodeBase62 "lYGhA16ahyg" = base62_value "lYGhA16ahyg" mod 2 ^ 64
  /\ Base62.DecodeBase62 "lYGhA16ahyg" = 0.
Proof.
  assert (H : Forall (fun c => is_base62_byte c = true) (bytes_of_string "lYGhA16ahyg")).
  { unfold bytes_of_string. simpl. repeat (constructor; [reflexivity|]). constructor. }
  split; [exact H|]. split; [reflexivity|].
  split; [exact (proj1 (DecodeBase62_value_mod "lYGhA16ahyg" H)) | reflexivity].
Defined.

(** X3.  [DecodeBase62] does not see a ["0"] in front: a string and
    the same string after ["0"] decode to the same number, so decoding
    is not injective on the strings that [IsValidBase62] accepts. *)
Theorem DecodeBase62_leading_zero (s : string) :
  Base62.DecodeBase62 ("0" +:+ s) = Base62.DecodeBase62 s.
Proof.
  assert (H : forall t, Base62.DecodeBase62 t = decode_fold (rev (bytes_of_string t)) 0 1).
  { intros t. rewrite <- (string_of_bytes_of_string t) at 1.
    apply Base62Facts.DecodeBase62_fold. }
  rewrite !H, ServicesFacts.bytes_of_string_app, rev_app_distr.
  apply Base62More.decode_fold_zero. unfold is_uint64. lia.
Qed.

(** X4.  Encoding undoes decoding on the codes [EncodeBase62] makes: a
    string that passes [IsValidBase62], has no ["0"] in front (or is
    ["0"]) and denotes a number below 2^64 is the code of its decoded
    value. *)
Theorem EncodeBase62_of_DecodeBase62 (s : string) :
  canonical s -> base62_value s < 2 ^ 64 ->
  Base62.EncodeBase62 (Base62.DecodeBase62 s) = s.
Proof. apply Base62More.EncodeBase62_DecodeBase62. Qed.

Lemma EncodeBase62_of_DecodeBase62_witness :
  canonical "lYGhA16ahyf" /\ base62_value "lYGhA16ahyf" < 2 ^ 64
  /\ Base62.EncodeBase62 (Base62.DecodeBase62 "lYGhA16ahyf") = "lYGhA16ahyf"%string.
Proof.
  assert (H1 : canonical "lYGhA16ahyf").
  { split; [reflexivity|]. right. simpl. discriminate. }
  assert (H2 : base62_value "lYGhA16ahyf" < 2 ^ 64) by reflexivity.
  split; [exact H1 | split; [exact H2 | exact (EncodeBase62_of_DecodeBase62 _ H1 H2)]].
Defined.

(** X5.  What [Save] returns can be looked up at once.  In a coherent
    store, [Save] returns a pointer to an object with the given
    original URL, whose code is the encoding of its id and passes
    [IsValidBase62]; in the store after the call [GetByShortCode] on
    this code and [GetByID] on this id, or on the decoded code, return
    the same pointer. *)
Theorem Save_then_lookup (s : Storage.MemoryStorage) (originalURL : string) (now : Time) :
  coherent s ->
  let s' := (Storage.Save originalURL now s).2 in
  exists p r,
    (Storage.Save originalURL now s).1 = (Some p, None)
    /\ Storage.heap s' !! p = Some r
    /\ OriginalURL r = originalURL
    /\ ShortCode r = Base62.EncodeBase62 (ID r)
    /\ Base62.IsValidBase62 (ShortCode r) = true
    /\ Storage.GetByShortCode (ShortCode r) s' = (Some p, None)
    /\ Storage.GetByID (ID r) s' = (Some p, None)
    /\ Storage.GetByID (Base62.DecodeBase62 (ShortCode r)) s' = (Some p, None).
Proof.
  intros Hc s'.
  destruct (StorageMore.Save_result s originalURL now Hc)
    as (p & r & Hres & Hr & Hu & Hcode & Hid & Hbc & Hbi & _).
  fold s' in Hr, Hbc, Hbi.
  assert (Hu64 : is_uint64 (ID r)) by (unfold is_uint64, uint64_max in *; lia).
  exists p, r. split; [done|]. split; [done|]. split; [done|]. split; [done|].
  split; [rewrite Hcode; by apply Base62More.EncodeBase62_canonical|].
  unfold Storage.GetByShortCode, Storage.GetByID.
  rewrite Hbc, Hcode, Base62Facts.roundtrip, Hbi by done. done.
Qed.

Lemma Save_then_lookup_witness :
  coherent Storage.NewMemoryStorage
  /\ exists p r,
       (Storage.Save "https://x.com" 5 Storage.NewMemoryStorage).1 = (Some p, None)
       /\ Storage.heap (Storage.Save "https://x.com" 5 Storage.NewMemoryStorage).2 !! p
          = Some r
       /\ Storage.GetByShortCode (ShortCode r)
            (Storage.Save "https://x.com" 5 Storage.NewMemoryStorage).2 = (Some p, None).
Proof.
  split; [apply StorageFacts.coherent_new|].
  destruct (Save_then_lookup Storage.NewMemoryStorage "https://x.com" 5
              StorageFacts.coherent_new) as (p & r & H1 & H2 & _ & _ & _ & H3 & _).
  exists p, r. split; [exact H1 | split; [exact H2 | exact H3]].
Defined.

(** X6.  [Save] never changes what is stored.  In a coherent store,
    every object keeps all its fields, the access count among them,
    and every lookup by code, by id or by original URL that found an
    object before the call finds the same object after it. *)
Theorem Save_frame (s : Storage.MemoryStorage) (originalURL : string) (now : Time) :
  coherent s ->
  let s' := (Storage.Save originalURL now s).2 in
  (forall p r, Storage.heap s !! p = Some r -> Storage.heap s' !! p = Some r)
  /\ (forall c p, Storage.GetByShortCode c s = (Some p, None) ->
        Storage.GetByShortCode c s' = (Some p, None))
  /\ (forall i p, Storage.GetByID i s = (Some p, None) ->
        Storage.GetByID i s' = (Some p, None))
  /\ (forall u p, Storage.urlsByOrig s !! u = Some p ->
        Storage.urlsByOrig s' !! u = Some p).
Proof.
  intros Hc s'. destruct (StorageMore.Save_keeps s originalURL now Hc)
    as (Hheap & Hurls & Hid & Horig).
  split; [done|]. split; [|split; [|done]].
  - intros c p. unfold Storage.GetByShortCode.
    destruct (Storage.urls s !! c) as [q|] eqn:Hq; [|done].
    intros [= ->]. subst s'. by rewrite (Hurls c p Hq).
  - intros i p. unfold Storage.GetByID.
    destruct (Storage.urlsByID s !! i) as [q|] eqn:Hq; [|done].
    intros [= ->]. subst s'. by rewrite (Hid i p Hq).
Qed.

Lemma Save_frame_witness :
  let s := (Storage.IncrementAccessCount "1"
              (Storage.Save "https://a.com" 1 Storage.NewMemoryStorage).2).2 in
  let s' := (Storage.Save "https://b.com" 2 s).2 in
  coherent s
  /\ Storage.heap s !! 0%nat = Some (mkURL 1 "https://a.com" "1" 1 1)
  /\ Storage.heap s' !! 0%nat = Some (mkURL 1 "https://a.com" "1" 1 1).
Proof.
  intros s s'.
  assert (Hc : coherent s).
  { apply StorageFacts.coherent_IncrementAccessCount, StorageFacts.coherent_Save;
      [apply StorageFacts.coherent_new | reflexivity]. }
  assert (Hr : Storage.heap s !! 0%nat = Some (mkURL 1 "https://a.com" "1" 1 1))
    by reflexivity.
  split; [exact Hc | split; [exact Hr|]].
  exact (proj1 (Save_frame s "https://b.com" 2 Hc) 0%nat _ Hr).
Defined.

(** X7.  The codes a coherent store resolves are exactly the
    encodings of the ids 1 .. nextID - 1.  For such a code, decoding
    it gives the id under which [GetByID] finds the same object.  The
    code ["0"] is never resolved. *)
Theorem resolved_codes (s : Storage.MemoryStorage) (shortCode : string) :
  coherent s ->
  ((Storage.GetByShortCode shortCode s).2 = None
   <-> exists i, 1 <= i < Storage.nextID s /\ shortCode = Base62.EncodeBase62 i)
  /\ (forall p, Storage.GetByShortCode shortCode s = (Some p, None) ->
        Storage.GetByID (Base62.DecodeBase62 shortCode) s = (Some p, None))
  /\ Storage.GetByShortCode "0" s = (None, Some storage_ErrURLNotFound).
Proof.
  intros Hc.
  assert (Hsome : forall c, (Storage.GetByShortCode c s).2 = None
                            <-> is_Some (Storage.urls s !! c)).
  { intros c. unfold Storage.GetByShortCode.
    destruct (Storage.urls s !! c); simpl; split; try done; try eauto. }
  split; [|split].
  - rewrite Hsome. by apply StorageMore.coherent_codes.
  - intros p. unfold Storage.GetByShortCode, Storage.GetByID.
    destruct (Storage.urls s !! shortCode) as [q|] eqn:Hq; [|done].
    intros [= ->].
    destruct (StorageFacts.indexed_allocated ShortCode _ _ _ _ (coh_urls s Hc) Hq)
      as (r & Hr & <-).
    destruct (coh_record s Hc p r Hr) as [_ Hcode].
    destruct (StorageMore.coherent_record_valid s p r Hc Hr) as [Hid _].
    rewrite Hcode, Base62Facts.roundtrip
      by (unfold is_uint64, uint64_max in *; lia).
    by rewrite (StorageFacts.indexed_lookup ID _ _ p r (coh_urlsByID s Hc) Hr).
  - unfold Storage.GetByShortCode.
    destruct (Storage.urls s !! "0"%string) as [q|] eqn:Hq; [|done]. exfalso.
    destruct (proj1 (StorageMore.coherent_codes s "0" Hc) (ex_intro _ q Hq))
      as (i & Hi & Heq).
    pose proof (coh_range s Hc) as Hmax.
    assert (i = 0); [|lia].
    apply (Base62Facts.EncodeBase62_inj i 0); unfold is_uint64, uint64_max in *;
      [lia | lia | done].
Qed.

Lemma resolved_codes_witness :
  let s := (Storage.Save "https://a.com" 1 Storage.NewMemoryStorage).2 in
  coherent s
  /\ Storage.GetByShortCode "0" s = (None, Some storage_ErrURLNotFound)
  /\ ((Storage.GetByShortCode "1" s).2 = None
      <-> exists i, 1 <= i < Storage.nextID s /\ "1"%string = Base62.EncodeBase62 i).
Proof.
  intros s.
  assert (Hc : coherent s).
  { apply StorageFacts.coherent_Save; [apply StorageFacts.coherent_new | reflexivity]. }
  split; [exact Hc|].
  split; [exact (proj2 (proj2 (resolved_codes s "1" Hc)))
         | exact (proj1 (resolved_codes s "1" Hc))].
Defined.

(** X8.  [GetAllURLs] returns as many pointers as the map by code has
    entries and, in a coherent store, every stored object exactly
    once: the result is a permutation of the pointers of the heap. *)
Theorem GetAllURLs_all (s : Storage.MemoryStorage) :
  length (Storage.GetAllURLs s) = size (Storage.urls s)
  /\ (forall p, p ∈ Storage.GetAllURLs s <-> exists c, Storage.urls s !! c = Some p)
  /\ (coherent s ->
      Storage.GetAllURLs s ≡ₚ seq 0 (length (Storage.heap s))
      /\ NoDup (Storage.GetAllURLs s)
      /\ length (Storage.GetAllURLs s) = length (Storage.heap s)).
Proof.
  split; [apply StorageMore.GetAllURLs_length|].
  split; [apply StorageMore.GetAllURLs_elem|].
  intros Hc. pose proof (StorageMore.GetAllURLs_permutation s Hc) as Hperm.
  split; [done|]. split.
  - rewrite Hperm. apply NoDup_seq.
  - by rewrite Hperm, length_seq.
Qed.

Lemma GetAllURLs_all_witness :
  let s := (Storage.Save "https://b.com" 2
              (Storage.Save "https://a.com" 1 Storage.NewMemoryStorage).2).2 in
  coherent s /\ Storage.GetAllURLs s ≡ₚ [0%nat; 1%nat].
Proof.
  intros s.
  assert (Hc : coherent s).
  { apply StorageFacts.coherent_Save;
      [apply StorageFacts.coherent_Save; [apply StorageFacts.coherent_new | reflexivity]
      | reflexivity]. }
  split; [exact Hc|].
  exact (proj1 (proj2 (proj2 (GetAllURLs_all s)) Hc)).
Defined.

(** X9.  The access count of a record is the number of calls of
    [IncrementAccessCount] on its code that returned no error: in the
    store reached from a new one by fewer than 2^64 - 1 calls, no
    access is lost or counted twice, calls on other codes and calls
    that fail (made before the record exists) count nothing, and
    [Save] and the lookups of the storage count nothing. *)
Theorem access_count_is_hits (ops : list Storage.op) :
  Z.of_nat (length ops) < uint64_max ->
  let s := Storage.run ops Storage.NewMemoryStorage in
  forall p r, Storage.heap s !! p = Some r ->
    AccessCount r = Z.of_nat (Storage.hits (ShortCode r) ops Storage.NewMemoryStorage).
Proof.
  intros Hlen s p r Hr.
  rewrite (StorageMore.run_created ops Storage.NewMemoryStorage p r);
    [|apply StorageFacts.coherent_new | simpl; lia | done | done].
  apply wrap64_small.
  pose proof (StorageMore.hits_bound (ShortCode r) ops Storage.NewMemoryStorage).
  unfold uint64_max in Hlen. lia.
Qed.

Lemma access_count_is_hits_witness :
  let ops := [Storage.OpIncrementAccessCount "1"; Storage.OpSave "https://a.com" 1;
              Storage.OpIncrementAccessCount "1"; Storage.OpIncrementAccessCount "2";
              Storage.OpSave "https://a.com" 2; Storage.OpIncrementAccessCount "1"] in
  Z.of_nat (length ops) < uint64_max
  /\ Storage.hits "1" ops Storage.NewMemoryStorage = 2%nat
  /\ (forall p r, Storage.heap (Storage.run ops Storage.NewMemoryStorage) !! p = Some r ->
        AccessCount r
        = Z.of_nat (Storage.hits (ShortCode r) ops Storage.NewMemoryStorage)).
Proof.
  intros ops.
  assert (H : Z.of_nat (length ops) < uint64_max) by (unfold uint64_max; simpl; lia).
  split; [exact H | split; [reflexivity | exact (access_count_is_hits ops H)]].
Defined.

(** X10.  A redirect counts one access.  In a coherent store, for a
    code of the map by code, [GetOriginalURL] returns the original URL
    of its object and no error, and its only effect is that of one
    [IncrementAccessCount]; [GetURLInfo] after it reports the same id,
    URL, code and creation time and the access count plus one (as a
    [uint64]). *)
Theorem GetOriginalURL_counts (config : Services.Config) (s : Storage.MemoryStorage)
    (shortCode : string) (p : nat) (r : URL) :
  coherent s -> Storage.urls s !! shortCode = Some p -> Storage.heap s !! p = Some r ->
  let s' := (Services.GetOriginalURL shortCode s).2 in
  (Services.GetOriginalURL shortCode s).1 = (OriginalURL r, None)
  /\ s' = (Storage.IncrementAccessCount shortCode s).2
  /\ coherent s'
  /\ Services.GetURLInfo config shortCode s
     = (Some {| Services.info_ID := ID r;
                Services.info_OriginalURL := OriginalURL r;
                Services.info_ShortCode := shortCode;
                Services.info_ShortURL := Services.buildShortURL config shortCode;
                Services.info_CreatedAt := CreatedAt r;
                Services.info_AccessCount := AccessCount r |}, None)
  /\ Services.GetURLInfo config shortCode s'
     = (Some {| Services.info_ID := ID r;
                Services.info_OriginalURL := OriginalURL r;
                Services.info_ShortCode := shortCode;
                Services.info_ShortURL := Services.buildShortURL config shortCode;
                Services.info_CreatedAt := CreatedAt r;
                Services.info_AccessCount := wrap64 (AccessCount r + 1) |}, None).
Proof.
  intros Hc Hp Hr s'.
  assert (Hs' : s' = (Storage.IncrementAccessCount shortCode s).2).
  { subst s'. by rewrite (ServicesFacts.GetOriginalURL_found s shortCode p r Hc Hp Hr). }
  assert (Hc' : coherent s').
  { rewrite Hs'. by apply StorageFacts.coherent_IncrementAccessCount. }
  assert (Hk : ShortCode r = shortCode).
  { destruct (StorageFacts.indexed_allocated ShortCode _ _ _ _ (coh_urls s Hc) Hp)
      as (r0 & Hr0 & Hk). congruence. }
  split; [by rewrite (ServicesFacts.GetOriginalURL_found s shortCode p r Hc Hp Hr)|].
  split; [done|]. split; [done|]. split.
  - rewrite (ServicesFacts.GetURLInfo_found config s shortCode p r Hc Hp Hr).
    by rewrite Hk.
  - rewrite (ServicesFacts.GetURLInfo_found config s' shortCode p (Storage.bump r) Hc').
    + simpl. by rewrite Hk.
    + rewrite Hs', (StorageFacts.IncrementAccessCount_found s shortCode p Hp). done.
    + rewrite Hs', (StorageFacts.IncrementAccessCount_found s shortCode p Hp). simpl.
      by rewrite list_lookup_alter_eq, Hr.
Qed.

Lemma GetOriginalURL_counts_witness :
  let s := (Storage.Save "https://a.com" 1 Storage.NewMemoryStorage).2 in
  coherent s
  /\ Storage.urls s !! "1"%string = Some 0%nat
  /\ Storage.heap s !! 0%nat = Some (mkURL 1 "https://a.com" "1" 1 0)
  /\ (Services.GetOriginalURL "1" s).1 = ("https://a.com"%string, None).
Proof.
  intros s.
  assert (Hc : coherent s).
  { apply StorageFacts.coherent_Save; [apply StorageFacts.coherent_new | reflexivity]. }
  assert (Hp : Storage.urls s !! "1"%string = Some 0%nat) by reflexivity.
  assert (Hr : Storage.heap s !! 0%nat = Some (mkURL 1 "https://a.com" "1" 1 0))
    by reflexivity.
  split; [exact Hc | split; [exact Hp | split; [exact Hr|]]].
  exact (proj1 (GetOriginalURL_counts {| Services.BaseURL := "http://localhost:8080" |}
                  s "1" 0%nat _ Hc Hp Hr)).
Defined.

(** X11.  [buildShortURL] joins the base URL and the code with one
    slash whatever the number of slashes the base URL ends with: the
    base URL is a string without a slash at its end followed by
    slashes only, and the short URL is this string, ["/"] and the
    code.  Slashes added at the end of the base URL change nothing. *)
Theorem buildShortURL_one_slash (base shortCode : string) (k : nat) :
  (exists trimmed n,
     base = (trimmed +:+ string_of_bytes (replicate n "/"%char))%string
     /\ last (bytes_of_string trimmed) <> Some "/"%char
     /\ Services.buildShortURL {| Services.BaseURL := base |} shortCode
        = (trimmed +:+ "/" +:+ shortCode)%string)
  /\ Services.buildShortURL
       {| Services.BaseURL := base +:+ string_of_bytes (replicate k "/"%char) |} shortCode
     = Services.buildShortURL {| Services.BaseURL := base |} shortCode
  /\ (last (bytes_of_string base) <> Some "/"%char ->
      Services.buildShortURL {| Services.BaseURL := base |} shortCode
      = (base +:+ "/" +:+ shortCode)%string).
Proof.
  unfold Services.buildShortURL. simpl. split; [|split].
  - destruct (ServicesFacts.TrimRight_slash_spec base) as (n & Hb & Hlast).
    by exists (Services.TrimRight_slash base), n.
  - by rewrite ServicesFacts.TrimRight_slash_slashes.
  - intros Hlast. by rewrite ServicesFacts.TrimRight_slash_id.
Qed.

Lemma buildShortURL_one_slash_witness :
  last (bytes_of_string "http://localhost:8080") <> Some "/"%char
  /\ Services.buildShortURL {| Services.BaseURL := "http://localhost:8080//" |} "1Z"
     = "http://localhost:8080/1Z"%string.
Proof.
  assert (H : last (bytes_of_string "http://localhost:8080") <> Some "/"%char)
    by (simpl; discriminate).
  split; [exact H|].
  destruct (buildShortURL_one_slash "http://localhost:8080" "1Z" 2) as (_ & Hk & Hid).
  exact (eq_trans Hk (Hid H)).
Defined.

(** X12.  The only error of the service's [ShortenURL] is
    [ErrInvalidURL], returned exactly when [validateURL] rejects the
    input, with a nil response and the store as it was; [Save] adds no
    error of its own.  An input that [strings.TrimSpace] empties, or
    that [url.Parse] refuses, is rejected.  This holds for every
    behaviour of the library functions. *)
Theorem ShortenURL_errors (lib : Services.Library) (config : Services.Config)
    (originalURL : string) (now : Time) (s : Storage.MemoryStorage) :
  let res := Services.ShortenURL lib config originalURL now s in
  (res.1.2 = None \/ res.1.2 = Some services_ErrInvalidURL)
  /\ (res.1.2 = Some services_ErrInvalidURL
      <-> Services.validateURL lib originalURL <> None)
  /\ (res.1.2 = Some services_ErrInvalidURL -> res.1.1 = None /\ res.2 = s)
  /\ (res.1.2 = None -> is_Some res.1.1)
  /\ (Services.TrimSpace lib originalURL = ""%string ->
      res.1.2 = Some services_ErrInvalidURL)
  /\ (Services.url_Parse lib originalURL = None ->
      res.1.2 = Some services_ErrInvalidURL).
Proof.
  intros res. subst res.
  assert (Htrim : Services.TrimSpace lib originalURL = ""%string ->
                  Services.validateURL lib originalURL <> None).
  { intros H. unfold Services.validateURL. by rewrite decide_True. }
  assert (Hparse : Services.url_Parse lib originalURL = None ->
                   Services.validateURL lib originalURL <> None).
  { intros H. unfold Services.validateURL. rewrite H. by case_decide. }
  destruct (Services.validateURL lib originalURL) as [err|] eqn:Hv.
  - rewrite ServicesFacts.ShortenURL_invalid by (by rewrite Hv). simpl.
    repeat split; auto; done.
  - destruct (ServicesFacts.ShortenURL_valid lib config originalURL now s Hv)
      as (p & _ & ->). simpl.
    split; [by left|]. split; [split; done|]. split; [done|]. split; [eauto|].
    split; intros H; [by apply Htrim in H | by apply Hparse in H].
Qed.

(** X13.  Shortening and then resolving gives the URL back.  From a
    coherent store, when [validateURL] accepts the input, [ShortenURL]
    returns a response whose original URL is the normalized input and
    whose code is the encoding of its id; [GetOriginalURL] on this
    code returns the normalized input, and [GetURLInfo] the same id,
    code, short URL and creation time. *)
Theorem ShortenURL_then_resolve (lib : Services.Library) (config : Services.Config)
    (originalURL : string) (now : Time) (s : Storage.MemoryStorage) :
  coherent s -> Storage.nextID s < uint64_max ->
  Services.validateURL lib originalURL = None ->
  let res := Services.ShortenURL lib config originalURL now s in
  exists resp info,
    res.1 = (Some resp, None)
    /\ coherent res.2
    /\ Services.resp_OriginalURL resp = Services.normalizeURL lib originalURL
    /\ Services.resp_ShortCode resp = Base62.EncodeBase62 (Services.resp_ID resp)
    /\ Services.resp_ShortURL resp
       = Services.buildShortURL config (Services.resp_ShortCode resp)
    /\ (Services.GetOriginalURL (Services.resp_ShortCode resp) res.2).1
       = (Services.normalizeURL lib originalURL, None)
    /\ Services.GetURLInfo config (Services.resp_ShortCode resp) res.2 = (Some info, None)
    /\ Services.info_ID info = Services.resp_ID resp
    /\ Services.info_OriginalURL info = Services.resp_OriginalURL resp
    /\ Services.info_ShortCode info = Services.resp_ShortCode resp
    /\ Services.info_ShortURL info = Services.resp_ShortURL resp
    /\ Services.info_CreatedAt info = Services.resp_CreatedAt resp.
Proof.
  intros Hc Hlt Hv res. subst res.
  destruct (ServicesFacts.ShortenURL_valid lib config originalURL now s Hv)
    as (p & Hsave & ->).
  set (u := Services.normalizeURL lib originalURL) in *.
  destruct (StorageMore.Save_result s u now Hc)
    as (p' & r & Hres & Hr & Hu & Hcode & Hid & Hbc & _).
  assert (p' = p) as -> by congruence.
  pose proof (StorageFacts.coherent_Save s u now Hc Hlt) as Hc'.
  set (s' := (Storage.Save u now s).2) in *.
  assert (Hd : Storage.deref s' p = r) by (unfold Storage.deref; by rewrite Hr).
  simpl. rewrite Hd.
  eexists _, _. split; [done|]. split; [done|]. simpl.
  split; [done|]. split; [done|]. split; [done|].
  split; [by rewrite (ServicesFacts.GetOriginalURL_found s' _ p r Hc' Hbc Hr), Hu|].
  split; [apply (ServicesFacts.GetURLInfo_found config s' _ p r Hc' Hbc Hr)|].
  done.
Qed.

(** X14.  [ShortenURL] is idempotent up to normalization.  From a
    coherent store, two accepted inputs with the same normalized URL,
    shortened one after the other, get the same response (id, URL,
    code, short URL and creation time), and the second call leaves
    the store as the first left it. *)
Theorem ShortenURL_idempotent (lib : Services.Library) (config : Services.Config)
    (url1 url2 : string) (t1 t2 : Time) (s : Storage.MemoryStorage) :
  coherent s ->
  Services.validateURL lib url1 = None -> Services.validateURL lib url2 = None ->
  Services.normalizeURL lib url1 = Services.normalizeURL lib url2 ->
  let first := Services.ShortenURL lib config url1 t1 s in
  let second := Services.ShortenURL lib config url2 t2 first.2 in
  second.1 = first.1 /\ second.2 = first.2 /\ exists resp, first.1 = (Some resp, None).
Proof.
  intros Hc Hv1 Hv2 Hn first second. subst first second.
  destruct (ServicesFacts.ShortenURL_valid lib config url1 t1 s Hv1) as (p & Hsave & ->).
  simpl.
  set (u := Services.normalizeURL lib url1) in *.
  destruct (StorageMore.Save_result s u t1 Hc)
    as (p' & r & Hres & Hr & _ & _ & _ & _ & _ & Horig).
  assert (p' = p) as -> by congruence.
  set (s' := (Storage.Save u t1 s).2) in *.
  destruct (ServicesFacts.ShortenURL_valid lib config url2 t2 s' Hv2) as (q & Hsave2 & ->).
  rewrite <- Hn in *. fold u in Hsave2 |- *.
  rewrite (StorageFacts.Save_existing s' u t2 p Horig) in *. simpl in *.
  injection Hsave2 as <-. eauto.
Qed.

Lemma ShortenURL_then_resolve_witness :
  let lib := ExampleLibrary.lib in
  let config := {| Services.BaseURL := "http://localhost:8080" |} in
  let s := Storage.NewMemoryStorage in
  coherent s /\ Storage.nextID s < uint64_max
  /\ Services.validateURL lib "https://www.example.com" = None
  /\ exists resp info,
       (Services.ShortenURL lib config "https://www.example.com" 7 s).1 = (Some resp, None)
       /\ Services.GetURLInfo config (Services.resp_ShortCode resp)
            (Services.ShortenURL lib config "https://www.example.com" 7 s).2
          = (Some info, None).
Proof.
  intros lib config s.
  assert (H1 : coherent s) by apply StorageFacts.coherent_new.
  assert (H2 : Storage.nextID s < uint64_max) by reflexivity.
  assert (H3 : Services.validateURL lib "https://www.example.com" = None) by reflexivity.
  split; [exact H1 | split; [exact H2 | split; [exact H3|]]].
  destruct (ShortenURL_then_resolve lib config "https://www.example.com" 7 s H1 H2 H3)
    as (resp & info & Hr & _ & _ & _ & _ & _ & Hi & _).
  exists resp, info. split; [exact Hr | exact Hi].
Defined.

Lemma ShortenURL_idempotent_witness :
  let lib := ExampleLibrary.lib in
  let config := {| Services.BaseURL := "http://localhost:8080" |} in
  let s := Storage.NewMemoryStorage in
  let first := Services.ShortenURL lib config "https://www.duplicate.com" 7 s in
  let second := Services.ShortenURL lib config "https://www.duplicate.com" 9 first.2 in
  coherent s
  /\ Services.validateURL lib "https://www.duplicate.com" = None
  /\ second.1 = first.1 /\ second.2 = first.2.
Proof.
  intros lib config s first second.
  assert (H1 : coherent s) by apply StorageFacts.coherent_new.
  assert (H3 : Services.validateURL lib "https://www.duplicate.com" = None) by reflexivity.
  split; [exact H1 | split; [exact H3|]].
  destruct (ShortenURL_idempotent lib config "https://www.duplicate.com"
              "https://www.duplicate.com" 7 9 s H1 H3 H3 eq_refl) as (Ha & Hb & _).
  split; [exact Ha | exact Hb].
Defined.

(** ** The configuration *)

Module ConfigFacts.

Import ConfigPkg.

Lemma LoadConfig_Port (Getenv : string -> string) :
  Port (LoadConfig Getenv)
  = if decide (Getenv "PORT" = ""%string) then "8080"%string else Getenv "PORT".
Proof. unfold LoadConfig. repeat case_decide; simpl; congruence. Qed.

Lemma LoadConfig_BaseURL (Getenv : string -> string) :
  BaseURL (LoadConfig Getenv)
  = if decide (Getenv "BASE_URL" = ""%string) then "http://localhost:8080"%string
    else Getenv "BASE_URL".
Proof. unfold LoadConfig. repeat case_decide; simpl; congruence. Qed.

Lemma LoadConfig_LogLevel (Getenv : string -> string) :
  LogLevel (LoadConfig Getenv)
  = if decide (Getenv "LOG_LEVEL" = ""%string) then "info"%string
    else Getenv "LOG_LEVEL".
Proof. unfold LoadConfig. repeat case_decide; simpl; congruence. Qed.

Lemma GetPort_Some (c : Config) : Port c <> ""%string -> is_Some (GetPort c).
Proof.
  intros Hne. unfold GetPort. destruct (Port c); [done|]. case_decide; eauto.
Qed.

Lemma IsValidPort_Some (c : Config) : Port c <> ""%string -> is_Some (IsValidPort c).
Proof.
  intros Hne. unfold IsValidPort. destruct (Port c); [done|].
  destruct (Atoi _); eauto.
Qed.

End ConfigFacts.

(** X15.  [LoadConfig] takes each of PORT, BASE_URL and LOG_LEVEL from
    the environment when it is set and not empty, and its default
    otherwise.  Thus the port is never empty, and [GetPort] and
    [IsValidPort], which index the first character of the port, never
    panic on a loaded configuration; with no variable set the port is
    valid and the address is [":8080"]. *)
Theorem LoadConfig_safe (Getenv : string -> string) :
  let c := ConfigPkg.LoadConfig Getenv in
  ConfigPkg.Port c
  = (if decide (Getenv "PORT" = ""%string) then "8080"%string else Getenv "PORT")
  /\ ConfigPkg.BaseURL c
     = (if decide (Getenv "BASE_URL" = ""%string) then "http://localhost:8080"%string
        else Getenv "BASE_URL")
  /\ ConfigPkg.LogLevel c
     = (if decide (Getenv "LOG_LEVEL" = ""%string) then "info"%string
        else Getenv "LOG_LEVEL")
  /\ is_Some (ConfigPkg.GetPort c)
  /\ is_Some (ConfigPkg.IsValidPort c)
  /\ (Getenv "PORT" = ""%string ->
      ConfigPkg.GetPort c = Some ":8080"%string
      /\ ConfigPkg.IsValidPort c = Some true).
Proof.
  intros c. subst c.
  pose proof (ConfigFacts.LoadConfig_Port Getenv) as HP.
  assert (Hne : ConfigPkg.Port (ConfigPkg.LoadConfig Getenv) <> ""%string).
  { rewrite HP. by case_decide. }
  split; [done|]. split; [apply ConfigFacts.LoadConfig_BaseURL|].
  split; [apply ConfigFacts.LoadConfig_LogLevel|].
  split; [by apply ConfigFacts.GetPort_Some|].
  split; [by apply ConfigFacts.IsValidPort_Some|].
  intros Henv. rewrite decide_True in HP by done.
  unfold ConfigPkg.GetPort, ConfigPkg.IsValidPort. rewrite HP. done.
Qed.

Lemma LoadConfig_safe_witness :
  let Getenv := fun name : string => if decide (name = "BASE_URL"%string)
                                     then "https://sho.rt/"%string else ""%string in
  Getenv "PORT" = ""%string
  /\ ConfigPkg.GetPort (ConfigPkg.LoadConfig Getenv) = Some ":8080"%string
  /\ ConfigPkg.IsValidPort (ConfigPkg.LoadConfig Getenv) = Some true.
Proof.
  intros Getenv.
  assert (H : Getenv "PORT" = ""%string) by reflexivity.
  split; [exact H|].
  exact (proj2 (proj2 (proj2 (proj2 (proj2 (LoadConfig_safe Getenv))))) H).
Defined.

(** X16.  [GetPort] and [IsValidPort] agree on the colon.  For a port
    that is not empty, [GetPort] returns the port with one [":"] put
    in front unless it starts with one; the result starts with [":"],
    [GetPort] leaves it as it is, and [IsValidPort] gives the same
    answer for it as for the port: the answer is [true] exactly when
    the text after the first [":"] of the address is read by
    [strconv.Atoi] as a number from 1 to 65535.  On an empty port both
    panic. *)
Theorem GetPort_IsValidPort (c : ConfigPkg.Config) :
  (ConfigPkg.Port c = ""%string ->
   ConfigPkg.GetPort c = None /\ ConfigPkg.IsValidPort c = None)
  /\ (ConfigPkg.Port c <> ""%string ->
      exists rest,
        ConfigPkg.GetPort c = Some (":" +:+ rest)%string
        /\ (ConfigPkg.Port c = rest \/ ConfigPkg.Port c = (":" +:+ rest)%string)
        /\ (let c' := {| ConfigPkg.Port := ":" +:+ rest;
                         ConfigPkg.BaseURL := ConfigPkg.BaseURL c;
                         ConfigPkg.LogLevel := ConfigPkg.LogLevel c |} in
            ConfigPkg.GetPort c' = Some (":" +:+ rest)%string
            /\ ConfigPkg.IsValidPort c' = ConfigPkg.IsValidPort c)
        /\ (ConfigPkg.IsValidPort c = Some true
            <-> exists port, ConfigPkg.Atoi rest = Some port /\ 1 <= port <= 65535)).
Proof.
  unfold ConfigPkg.GetPort, ConfigPkg.IsValidPort.
  destruct (ConfigPkg.Port c) as [|c0 rest] eqn:HP; simpl.
  { split; [done | by intros []]. }
  split; [done|]. intros _.
  assert (Hatoi : forall t,
            match ConfigPkg.Atoi t with
            | Some port => Some ((0 <? port) && (port <=? 65535))
            | None => Some false
            end = Some true
            <-> exists port, ConfigPkg.Atoi t = Some port /\ 1 <= port <= 65535).
  { intros t. destruct (ConfigPkg.Atoi t) as [port|]; split.
    - intros [= H]. apply andb_prop in H as [H1 H2].
      apply Z.ltb_lt in H1. apply Z.leb_le in H2. exists port. split; [done | lia].
    - intros (port' & [= <-] & H). f_equal. apply andb_true_intro.
      split; [apply Z.ltb_lt | apply Z.leb_le]; lia.
    - done.
    - by intros (port' & ? & _). }
  destruct (decide (c0 = ":"%char)) as [->|Hne].
  - exists rest. rewrite decide_False by (by intros ?).
    split; [done|]. split; [by right|]. split; [done|]. apply Hatoi.
  - exists (String c0 rest). rewrite decide_True by done.
    split; [done|]. split; [by left|]. split; [done|]. apply Hatoi.
Qed.

Lemma GetPort_IsValidPort_witness :
  let c := {| ConfigPkg.Port := "8080"; ConfigPkg.BaseURL := "http://localhost:8080";
              ConfigPkg.LogLevel := "info" |} in
  ConfigPkg.Port c <> ""%string
  /\ ConfigPkg.GetPort c = Some ":8080"%string
  /\ ConfigPkg.IsValidPort c = Some true.
Proof.
  intros c.
  assert (H : ConfigPkg.Port c <> ""%string) by (simpl; discriminate).
  split; [exact H|].
  destruct (proj2 (GetPort_IsValidPort c) H) as (rest & Hget & _ & _ & Hvalid).
  assert (Hrest : rest = "8080"%string).
  { assert (E : Some (":" +:+ rest)%string = Some ":8080"%string)
      by (rewrite <- Hget; reflexivity).
    by injection E. }
  split; [by rewrite Hget, Hrest|].
  apply Hvalid. exists 8080. rewrite Hrest. split; [reflexivity | lia].
Defined.

(** ** The handlers *)

Module HandlersFacts.

Import Storage Services.

(** The object of a pointer keeps its original URL through an
    increment of an access count. *)
Lemma deref_OriginalURL_increment (s : MemoryStorage) (shortCode : string) (p : nat) :
  OriginalURL (deref (IncrementAccessCount shortCode s).2 p) = OriginalURL (deref s p).
Proof.
  unfold IncrementAccessCount, deref.
  destruct (urls s !! shortCode) as [q|]; [|done]. simpl.
  destruct (decide (q = p)) as [->|Hne].
  - rewrite list_lookup_alter_eq. by destruct (heap s !! p).
  - by rewrite list_lookup_alter_ne.
Qed.

End HandlersFacts.

(** X17.  The answers of the handler [RedirectURL].  A code that
    [IsValidBase62] rejects gets 400 [invalid_short_code] and a code it
    accepts that is not stored gets 404 [url_not_found], both with the
    store unchanged; a stored code gets the redirect 301 to the
    original URL of its object and counts one access.  The handler
    never answers 500.  In a coherent store every stored code is
    accepted, so the redirect is the answer for each of them. *)
Theorem RedirectURL_answers (s : Storage.MemoryStorage) (shortCode : string) :
  let res := Handlers.RedirectURL shortCode s in
  (Base62.IsValidBase62 shortCode = false ->
   res = (Handlers.JSON 400
            (Handlers.ErrorResponse "invalid_short_code" "Invalid short code format"), s))
  /\ (Base62.IsValidBase62 shortCode = true -> Storage.urls s !! shortCode = None ->
      res = (Handlers.JSON 404
               (Handlers.ErrorResponse "url_not_found" "Short URL not found"), s))
  /\ (forall p, Base62.IsValidBase62 shortCode = true ->
        Storage.urls s !! shortCode = Some p ->
        res = (Handlers.Redirect 301 (OriginalURL (Storage.deref s p)),
               (Storage.IncrementAccessCount shortCode s).2))
  /\ (forall obj, res.1 <> Handlers.JSON 500 obj)
  /\ (coherent s -> forall p, Storage.urls s !! shortCode = Some p ->
        res.1 = Handlers.Redirect 301 (OriginalURL (Storage.deref s p))).
Proof.
  intros res. subst res.
  assert (Hfound : forall p, Base62.IsValidBase62 shortCode = true ->
            Storage.urls s !! shortCode = Some p ->
            Handlers.RedirectURL shortCode s
            = (Handlers.Redirect 301 (OriginalURL (Storage.deref s p)),
               (Storage.IncrementAccessCount shortCode s).2)).
  { intros p Hv Hp.
    unfold Handlers.RedirectURL, Services.GetOriginalURL, Storage.GetByShortCode.
    rewrite Hv, Hp. simpl.
    by rewrite HandlersFacts.deref_OriginalURL_increment. }
  split; [|split; [|split; [done|split]]].
  - intros Hv.
    unfold Handlers.RedirectURL, Services.GetOriginalURL. by rewrite Hv.
  - intros Hv Hp.
    unfold Handlers.RedirectURL, Services.GetOriginalURL, Storage.GetByShortCode.
    by rewrite Hv, Hp.
  - intros obj.
    unfold Handlers.RedirectURL, Services.GetOriginalURL, Storage.GetByShortCode.
    destruct (Base62.IsValidBase62 shortCode); simpl; [|done].
    by destruct (Storage.urls s !! shortCode).
  - intros Hc p Hp. rewrite (Hfound p); [done | | done].
    destruct (StorageFacts.indexed_allocated ShortCode _ _ _ _ (coh_urls s Hc) Hp)
      as (r & Hr & <-).
    by destruct (StorageMore.coherent_record_valid s p r Hc Hr).
Qed.

Lemma RedirectURL_answers_witness :
  let s := (Storage.Save "https://www.example.com" 1 Storage.NewMemoryStorage).2 in
  Base62.IsValidBase62 "1" = true /\ Storage.urls s !! "1"%string = Some 0%nat
  /\ Handlers.RedirectURL "1" s
     = (Handlers.Redirect 301 "https://www.example.com",
        (Storage.IncrementAccessCount "1" s).2)
  /\ Base62.IsValidBase62 "nonexistent" = true
  /\ Storage.urls s !! "nonexistent"%string = None
  /\ (Handlers.RedirectURL "nonexistent" s).1
     = Handlers.JSON 404 (Handlers.ErrorResponse "url_not_found" "Short URL not found").
Proof.
  intros s.
  assert (H1 : Base62.IsValidBase62 "1" = true) by reflexivity.
  assert (H2 : Storage.urls s !! "1"%string = Some 0%nat) by reflexivity.
  assert (H3 : Base62.IsValidBase62 "nonexistent" = true) by reflexivity.
  assert (H4 : Storage.urls s !! "nonexistent"%string = None) by reflexivity.
  destruct (RedirectURL_answers s "1") as (_ & _ & Hf & _).
  destruct (RedirectURL_answers s "nonexistent") as (_ & Ha & _).
  split; [exact H1 | split; [exact H2 | split; [exact (Hf 0%nat H1 H2)|]]].
  split; [exact H3 | split; [exact H4|]].
  exact (f_equal fst (Ha H3 H4)).
Defined.

(** X18.  The answers of the handler [GetURLInfo]: 400
    [invalid_short_code] for a code that [IsValidBase62] rejects, 404
    [url_not_found] for an accepted code that is not stored, and 200
    with the fields of the object for a stored code, the short URL
    built from the code; never 500, and never an empty body. *)
Theorem GetURLInfo_answers (config : Services.Config) (s : Storage.MemoryStorage)
    (shortCode : string) :
  let res := Handlers.GetURLInfo config shortCode s in
  (Base62.IsValidBase62 shortCode = false ->
   res = Handlers.JSON 400
           (Handlers.ErrorResponse "invalid_short_code" "Invalid short code format"))
  /\ (Base62.IsValidBase62 shortCode = true -> Storage.urls s !! shortCode = None ->
      res = Handlers.JSON 404
              (Handlers.ErrorResponse "url_not_found" "Short URL not found"))
  /\ (forall p, Base62.IsValidBase62 shortCode = true ->
        Storage.urls s !! shortCode = Some p ->
        let u := Storage.deref s p in
        res = Handlers.JSON 200
                (Handlers.InfoBody
                   {| Services.info_ID := ID u;
                      Services.info_OriginalURL := OriginalURL u;
                      Services.info_ShortCode := ShortCode u;
                      Services.info_ShortURL :=
                        Services.buildShortURL config (ShortCode u);
                      Services.info_CreatedAt := CreatedAt u;
                      Services.info_AccessCount := AccessCount u |}))
  /\ (forall obj, res <> Handlers.JSON 500 obj)
  /\ (forall code, res <> Handlers.JSON code Handlers.NullBody)
  /\ (coherent s -> forall p, Storage.urls s !! shortCode = Some p ->
        exists info, res = Handlers.JSON 200 (Handlers.InfoBody info)
                     /\ Services.info_ShortCode info = shortCode).
Proof.
  intros res. subst res.
  unfold Handlers.GetURLInfo, Services.GetURLInfo, Storage.GetByShortCode.
  split; [|split; [|split; [|split; [|split]]]].
  - by intros ->.
  - by intros -> ->.
  - by intros p -> ->.
  - intros obj. destruct (Base62.IsValidBase62 shortCode); simpl; [|done].
    by destruct (Storage.urls s !! shortCode).
  - intros code. destruct (Base62.IsValidBase62 shortCode); simpl; [|done].
    by destruct (Storage.urls s !! shortCode).
  - intros Hc p Hp.
    destruct (StorageFacts.indexed_allocated ShortCode _ _ _ _ (coh_urls s Hc) Hp)
      as (r & Hr & Hk).
    destruct (StorageMore.coherent_record_valid s p r Hc Hr) as [_ Hv].
    rewrite <- Hk, Hv, Hk, Hp. simpl. eexists. split; [done|].
    simpl. unfold Storage.deref. by rewrite Hr.
Qed.

Lemma GetURLInfo_answers_witness :
  let s := (Storage.Save "https://www.example.com" 1 Storage.NewMemoryStorage).2 in
  let config := {| Services.BaseURL := "http://localhost:8080" |} in
  Base62.IsValidBase62 "test@code" = false
  /\ Handlers.GetURLInfo config "test@code" s
     = Handlers.JSON 400
         (Handlers.ErrorResponse "invalid_short_code" "Invalid short code format")
  /\ coherent s /\ Storage.urls s !! "1"%string = Some 0%nat
  /\ exists info, Handlers.GetURLInfo config "1" s
                  = Handlers.JSON 200 (Handlers.InfoBody info)
                  /\ Services.info_ShortCode info = "1"%string.
Proof.
  intros s config.
  assert (H1 : Base62.IsValidBase62 "test@code" = false) by reflexivity.
  assert (Hc : coherent s).
  { apply StorageFacts.coherent_Save; [apply StorageFacts.coherent_new | reflexivity]. }
  assert (H2 : Storage.urls s !! "1"%string = Some 0%nat) by reflexivity.
  split; [exact H1|].
  split; [exact (proj1 (GetURLInfo_answers config s "test@code") H1)|].
  split; [exact Hc | split; [exact H2|]].
  exact (proj2 (proj2 (proj2 (proj2 (proj2 (GetURLInfo_answers config s "1"))))) Hc _ H2).
Defined.

(** X19.  The answers of the handler [ShortenURL].  A request that
    does not bind gets 400 [invalid_request] with the text of the
    binding error; a URL that [validateURL] rejects gets 400
    [invalid_url]; in both cases the store is unchanged.  An accepted
    URL gets 201 with the response of the service, in the store that
    [Save] of the normalized URL leaves.  The handler never answers
    500 and never writes an empty body: its [default] branch is never
    taken.  This holds for every behaviour of the library functions. *)
Theorem ShortenURL_answers (lib : Services.Library) (config : Services.Config)
    (bound : string + string) (now : Time) (s : Storage.MemoryStorage) :
  let res := Handlers.ShortenURL lib config bound now s in
  (forall message, bound = inl message ->
     res = (Handlers.JSON 400 (Handlers.ErrorResponse "invalid_request" message), s))
  /\ (forall url, bound = inr url -> Services.validateURL lib url <> None ->
        res = (Handlers.JSON 400
                 (Handlers.ErrorResponse "invalid_url" "The provided URL is not valid"),
               s))
  /\ (forall url, bound = inr url -> Services.validateURL lib url = None ->
        exists resp,
          res = (Handlers.JSON 201 (Handlers.ShortenBody resp),
                 (Storage.Save (Services.normalizeURL lib url) now s).2)
          /\ (Services.ShortenURL lib config url now s).1 = (Some resp, None))
  /\ (forall obj, res.1 <> Handlers.JSON 500 obj)
  /\ (forall code, res.1 <> Handlers.JSON code Handlers.NullBody).
Proof.
  intros res. subst res.
  assert (Hbad : forall url, Services.validateURL lib url <> None ->
            Handlers.ShortenURL lib config (inr url) now s
            = (Handlers.JSON 400
                 (Handlers.ErrorResponse "invalid_url" "The provided URL is not valid"),
               s)).
  { intros url Hv. unfold Handlers.ShortenURL.
    by rewrite (ServicesFacts.ShortenURL_invalid lib config url now s Hv). }
  assert (Hgood : forall url, Services.validateURL lib url = None ->
            exists resp,
              Handlers.ShortenURL lib config (inr url) now s
              = (Handlers.JSON 201 (Handlers.ShortenBody resp),
                 (Storage.Save (Services.normalizeURL lib url) now s).2)
              /\ (Services.ShortenURL lib config url now s).1 = (Some resp, None)).
  { intros url Hv. unfold Handlers.ShortenURL.
    destruct (ServicesFacts.ShortenURL_valid lib config url now s Hv) as (p & _ & ->).
    simpl. eauto. }
  split; [by intros message ->|].
  split; [by intros url -> Hv; apply Hbad|].
  split; [by intros url -> Hv; apply Hgood|].
  split.
  - intros obj. destruct bound as [message|url]; [done|].
    destruct (Services.validateURL lib url) as [err|] eqn:Hv.
    + rewrite Hbad by (by rewrite Hv). done.
    + destruct (Hgood url Hv) as (resp & -> & _). done.
  - intros code. destruct bound as [message|url]; [done|].
    destruct (Services.validateURL lib url) as [err|] eqn:Hv.
    + rewrite Hbad by (by rewrite Hv). done.
    + destruct (Hgood url Hv) as (resp & -> & _). done.
Qed.

Lemma ShortenURL_answers_witness :
  let lib := ExampleLibrary.lib in
  let config := {| Services.BaseURL := "http://localhost:8080" |} in
  let s := Storage.NewMemoryStorage in
  Services.validateURL lib "not-a-url" <> None
  /\ Handlers.ShortenURL lib config (inr "not-a-url"%string) 3 s
     = (Handlers.JSON 400
          (Handlers.ErrorResponse "invalid_url" "The provided URL is not valid"), s)
  /\ Services.validateURL lib "https://www.example.com" = None
  /\ exists resp,
       (Handlers.ShortenURL lib config (inr "https://www.example.com"%string) 3 s).1
       = Handlers.JSON 201 (Handlers.ShortenBody resp).
Proof.
  intros lib config s.
  assert (H1 : Services.validateURL lib "not-a-url" <> None)
    by (vm_compute; discriminate).
  assert (H2 : Services.validateURL lib "https://www.example.com" = None) by reflexivity.
  destruct (ShortenURL_answers lib config (inr "not-a-url"%string) 3 s)
    as (_ & Hbad & _).
  destruct (ShortenURL_answers lib config (inr "https://www.example.com"%string) 3 s)
    as (_ & _ & Hgood & _).
  split; [exact H1 | split; [exact (Hbad _ eq_refl H1) | split; [exact H2|]]].
  destruct (Hgood _ eq_refl H2) as (resp & Hr & _).
  exists resp. exact (f_equal fst Hr).
Defined.

(** ** Validation and deduplication *)

Module MoreFacts.

Import Storage Services.

Lemma contains_char (l : list ascii) (c : ascii) :
  contains l [c] = true <-> c ∈ l.
Proof.
  induction l as [|x l IH]; simpl.
  { split; [done | by intros ?%elem_of_nil]. }
  rewrite orb_true_iff, IH, elem_of_cons.
  case_decide as Hx.
  - subst x. split; intros _; left; [done | by destruct l].
  - split; [intros [?|?]; [done | by right] | intros [?|?]; [congruence | by right]].
Qed.

(** The original URLs of the store after a run are those it had and
    those saved in the run. *)
Lemma dom_urlsByOrig_run (ops : list op) :
  forall s, dom (urlsByOrig (run ops s)) = dom (urlsByOrig s) ∪ saved_urls ops.
Proof.
  unfold saved_urls.
  induction ops as [|o ops IH]; intros s.
  { simpl. by rewrite (right_id_L ∅ (∪)). }
  change (run (o :: ops) s) with (run ops (step s o)). rewrite IH.
  destruct o as [u now|c|i|c]; simpl.
  - apply set_eq. intros x.
    unfold Save. destruct (urlsByOrig s !! u) eqn:Hu; simpl.
    + assert (u ∈ dom (urlsByOrig s)) by (apply elem_of_dom; eauto).
      rewrite !elem_of_union, elem_of_singleton.
      split; [tauto | intros [?|[->|?]]; tauto].
    + rewrite dom_insert_L, !elem_of_union, elem_of_singleton. tauto.
  - done.
  - done.
  - unfold IncrementAccessCount. by destruct (urls s !! c).
Qed.

End MoreFacts.

(** X20.  What [validateURL] accepts.  An accepted input is not
    emptied by [strings.TrimSpace], and the URL that passes the tests,
    parsed from the input or, when that one has no scheme or no host,
    from the input after ["http://"], has the scheme [http] or
    [https] and a host that contains a dot or is [localhost].  This
    holds for every behaviour of the library functions. *)
Theorem validateURL_accepts (lib : Services.Library) (rawURL : string) :
  Services.validateURL lib rawURL = None ->
  Services.TrimSpace lib rawURL <> ""%string
  /\ exists parsedURL,
       (Services.url_Parse lib rawURL = Some parsedURL
        \/ Services.url_Parse lib ("http://" +:+ rawURL) = Some parsedURL)
       /\ (Services.URL_Scheme lib parsedURL = "http"%string
           \/ Services.URL_Scheme lib parsedURL = "https"%string)
       /\ ("."%char ∈ bytes_of_string (Services.URL_Host lib parsedURL)
           \/ Services.URL_Host lib parsedURL = "localhost"%string)
       /\ Services.URL_Host lib parsedURL <> ""%string.
Proof.
  unfold Services.validateURL. intros Hv.
  destruct (decide (Services.TrimSpace lib rawURL = ""%string)) as [|Htrim]; [done|].
  split; [done|].
  destruct (Services.url_Parse lib rawURL) as [parsed0|] eqn:Hp0; [|done].
  assert (Hfinal : forall parsedURL,
            (if bool_decide (Services.URL_Scheme lib parsedURL <> "http"%string)
                && bool_decide (Services.URL_Scheme lib parsedURL <> "https"%string)
             then Some services_ErrInvalidURL
             else if negb (Services.Contains (Services.URL_Host lib parsedURL) ".")
                     && bool_decide (Services.URL_Host lib parsedURL <> "localhost"%string)
             then Some services_ErrInvalidURL else None) = None ->
            (Services.URL_Scheme lib parsedURL = "http"%string
             \/ Services.URL_Scheme lib parsedURL = "https"%string)
            /\ ("."%char ∈ bytes_of_string (Services.URL_Host lib parsedURL)
                \/ Services.URL_Host lib parsedURL = "localhost"%string)).
  { intros parsedURL H.
    destruct (decide (Services.URL_Scheme lib parsedURL = "http"%string)) as [Hs1|Hs1];
      destruct (decide (Services.URL_Scheme lib parsedURL = "https"%string)) as [Hs2|Hs2];
      rewrite ?(bool_decide_eq_true_2 _ Hs1), ?(bool_decide_eq_true_2 _ Hs2),
              ?(bool_decide_eq_false_2 (_ <> _)) in H by (intros Hn; by apply Hn);
      simpl in H; try done.
    all: (split; [auto|]).
    all: destruct (Services.Contains (Services.URL_Host lib parsedURL) ".") eqn:Hc;
      [left; by apply MoreFacts.contains_char in Hc|].
    all: simpl in H; right;
      destruct (decide (Services.URL_Host lib parsedURL = "localhost"%string)) as [|Hn];
      [done|]; by rewrite (bool_decide_eq_true_2 _ Hn) in H. }
  assert (Hhost : forall parsedURL,
            ("."%char ∈ bytes_of_string (Services.URL_Host lib parsedURL)
             \/ Services.URL_Host lib parsedURL = "localhost"%string) ->
            Services.URL_Host lib parsedURL <> ""%string).
  { intros parsedURL [Hdot|Hl] He; rewrite He in *; [|done].
    unfold bytes_of_string in Hdot. simpl in Hdot. by apply elem_of_nil in Hdot. }
  destruct (bool_decide (Services.URL_Scheme lib parsed0 = ""%string)
            || bool_decide (Services.URL_Host lib parsed0 = ""%string)) eqn:Hempty.
  - destruct (Services.url_Parse lib ("http://" +:+ rawURL)) as [parsed1|] eqn:Hp1;
      [|done].
    destruct (decide (Services.URL_Host lib parsed1 = ""%string)); [done|].
    destruct (Hfinal parsed1 Hv) as [Hs Hh].
    exists parsed1. split; [by right|]. split; [done|]. split; [done|]. by apply Hhost.
  - destruct (Hfinal parsed0 Hv) as [Hs Hh].
    exists parsed0. split; [by left|]. split; [done|]. split; [done|]. by apply Hhost.
Qed.

Lemma validateURL_accepts_witness :
  Services.validateURL ExampleLibrary.lib "www.example.com" = None
  /\ exists parsedURL,
       (Services.url_Parse ExampleLibrary.lib "www.example.com" = Some parsedURL
        \/ Services.url_Parse ExampleLibrary.lib ("http://" +:+ "www.example.com")
           = Some parsedURL)
       /\ (Services.URL_Scheme ExampleLibrary.lib parsedURL = "http"%string
           \/ Services.URL_Scheme ExampleLibrary.lib parsedURL = "https"%string).
Proof.
  assert (H : Services.validateURL ExampleLibrary.lib "www.example.com" = None)
    by reflexivity.
  split; [exact H|].
  destruct (validateURL_accepts ExampleLibrary.lib "www.example.com" H)
    as (_ & parsedURL & Hp & Hs & _).
  exists parsedURL. split; [exact Hp | exact Hs].
Defined.

(** X21.  One record for each distinct URL.  In the store reached
    from a new one by fewer than 2^64 - 1 calls, the number of records
    is the number of distinct original URLs given to [Save]: this is
    the [total_urls] of [GetStats] and the length of [GetAllURLs], and
    [next_id] is one more. *)
Theorem records_are_distinct_urls (ops : list Storage.op) :
  Z.of_nat (length ops) < uint64_max ->
  let s := Storage.run ops Storage.NewMemoryStorage in
  dom (Storage.urlsByOrig s) = saved_urls ops
  /\ size (Storage.urls s) = size (saved_urls ops)
  /\ length (Storage.GetAllURLs s) = size (saved_urls ops)
  /\ Storage.GetStats s !! "total_urls"%string
     = Some (Storage.stat_int (Z.of_nat (size (saved_urls ops))))
  /\ Storage.GetStats s !! "next_id"%string
     = Some (Storage.stat_uint64 (Z.of_nat (size (saved_urls ops)) + 1)).
Proof.
  intros Hlen s.
  pose proof (StorageFacts.coherent_reachable ops Hlen) as Hc. fold s in Hc.
  assert (Hdom : dom (Storage.urlsByOrig s) = saved_urls ops).
  { subst s. rewrite MoreFacts.dom_urlsByOrig_run. simpl.
    by rewrite dom_empty_L, (left_id_L ∅ (∪)). }
  assert (Hsize : size (Storage.urls s) = size (saved_urls ops)).
  { rewrite <- Hdom, size_dom.
    destruct (coh_urls s Hc) as [_ ->]. by destruct (coh_urlsByOrig s Hc) as [_ ->]. }
  split; [done|]. split; [done|].
  split; [by rewrite StorageMore.GetAllURLs_length|].
  unfold Storage.GetStats. rewrite lookup_insert_eq, Hsize.
  split; [done|]. rewrite lookup_insert_ne, lookup_insert_eq by done.
  rewrite (coh_nextID s Hc). destruct (coh_urls s Hc) as [_ <-]. by rewrite Hsize.
Qed.

Lemma records_are_distinct_urls_witness :
  let ops := [Storage.OpSave "https://a.com" 1; Storage.OpSave "https://b.com" 2;
              Storage.OpSave "https://a.com" 3; Storage.OpIncrementAccessCount "1"] in
  Z.of_nat (length ops) < uint64_max
  /\ size (saved_urls ops) = 2%nat
  /\ size (Storage.urls (Storage.run ops Storage.NewMemoryStorage)) = size (saved_urls ops).
Proof.
  intros ops.
  assert (H : Z.of_nat (length ops) < uint64_max) by (unfold uint64_max; simpl; lia).
  split; [exact H | split; [reflexivity|]].
  exact (proj1 (proj2 (records_are_distinct_urls ops H))).
Defined.
